(** * local-helpers: the shell-configuration section merge of [setup.py]

    A shallow embedding of [ShellConfigManager] (src/setup.py): the marker
    pair, the generation of the alias section, the regular-expression search
    and removal of an existing section, and the text transformation that
    [update_shell_config] applies to a configuration file.

    Python strings are sequences of Unicode code points: a character is its
    code point, a text a list of code points.  File contents are the decoded
    text that [read_text] returns and [write_text] receives. *)

From Stdlib Require Import Ascii String.
From Stdlib Require Import List NArith Arith Bool Lia.
Import ListNotations.

(** ** Texts *)

Definition char := N.
Definition text := list char.

(** The code points of a literal. *)
Definition codes (s : string) : text :=
  map N_of_ascii (list_ascii_of_string s).

Definition LF : char := 10%N.

(** [str.isspace] on one character, the test [str.strip()] uses
    (CPython's [_PyUnicode_IsWhitespace]). *)
Definition is_space (c : char) : bool :=
  ((9 <=? c) && (c <=? 13) || (28 <=? c) && (c <=? 32)
   || (c =? 133) || (c =? 160) || (c =? 5760)
   || (8192 <=? c) && (c <=? 8202)
   || (c =? 8232) || (c =? 8233) || (c =? 8239) || (c =? 8287)
   || (c =? 12288))%N.

(** [s.lstrip()], [s.rstrip()], [s.strip()]. *)
Fixpoint lstrip (s : text) : text :=
  match s with
  | [] => []
  | c :: s' => if is_space c then lstrip s' else s
  end.

Definition rstrip (s : text) : text := rev (lstrip (rev s)).

Definition strip (s : text) : text := rstrip (lstrip s).

(** [s.startswith(p)]. *)
Fixpoint startswith (p s : text) : bool :=
  match p, s with
  | [], _ => true
  | _ :: _, [] => false
  | a :: p', b :: s' => (a =? b)%N && startswith p' s'
  end.

(** [s.endswith(p)]. *)
Definition endswith (p s : text) : bool := startswith (rev p) (rev s).

(** [s.find(p)]: the lowest index at which [p] occurs in [s]. *)
Fixpoint index_of (p s : text) : option nat :=
  if startswith p s then Some 0
  else match s with
       | [] => None
       | _ :: s' => option_map S (index_of p s')
       end.

(** [p in s]. *)
Definition contains (p s : text) : bool :=
  match index_of p s with Some _ => true | None => false end.

(** The number of positions of [s] at which [p] occurs. *)
Fixpoint occurrences (p s : text) : nat :=
  (if startswith p s then 1 else 0) +
  match s with
  | [] => 0
  | _ :: s' => occurrences p s'
  end.

(** [sep.join(l)]. *)
Fixpoint join (sep : text) (l : list text) : text :=
  match l with
  | [] => []
  | x :: l' =>
      match l' with
      | [] => x
      | _ :: _ => x ++ sep ++ join sep l'
      end
  end.

(** [s.replace("\\", "/")]. *)
Definition replace_backslash (s : text) : text :=
  map (fun c => if (c =? 92)%N then 47%N else c) s.

(** ** The manager *)

(** [self.markers], a dict with the keys ["start"] and ["end"]. *)
Record markers := Markers { m_start : text; m_end : text }.

(** The markers [__init__] installs. *)
Definition local_helpers : text := codes "## local-helpers".

Definition init_markers : markers := Markers local_helpers local_helpers.

(** ** The pattern [re.escape(start) .*? re.escape(end)] with [re.DOTALL]

    Both markers are escaped, so they match literally; the lazy [.*?]
    between them takes, with DOTALL, the fewest characters of any kind
    that let the end marker match. *)

(** An attempt at the first position of [s]: the length of the match. *)
Definition match_here (m : markers) (s : text) : option nat :=
  if startswith (m_start m) s then
    match index_of (m_end m) (skipn (length (m_start m)) s) with
    | Some k => Some (length (m_start m) + k + length (m_end m))
    | None => None
    end
  else None.

(** [pattern.search(s)]: the leftmost position at which an attempt
    succeeds, with the length of the match there. *)
Fixpoint search (m : markers) (s : text) : option (nat * nat) :=
  match match_here m s with
  | Some n => Some (0, n)
  | None =>
      match s with
      | [] => None
      | _ :: s' =>
          match search m s' with
          | Some (i, n) => Some (S i, n)
          | None => None
          end
      end
  end.

(** [find_existing_section]: the match object, or [None]. *)
Definition find_existing_section (m : markers) (content : text)
  : option (nat * nat) :=
  search m content.

(** [pattern.sub("", s)] (Python 3.7 and later): the scan deletes every
    match it meets, left to right, and resumes after each one.  [skip]
    counts the characters of the current match still to be deleted.  A
    match is empty only when both markers are: after an empty match the
    engine must advance, the lazy [.*?] then takes one character, and
    that character is deleted as well. *)
Fixpoint sub_scan (m : markers) (skip : nat) (s : text) : text :=
  match s with
  | [] => []
  | c :: s' =>
      match skip with
      | S k => sub_scan m k s'
      | O =>
          match match_here m s with
          | Some (S n) => sub_scan m n s'
          | Some O => sub_scan m 0 s'
          | None => c :: sub_scan m 0 s'
          end
      end
  end.

Definition sub (m : markers) (s : text) : text := sub_scan m 0 s.

(** The number of non-empty matches that scan meets
    ([len(pattern.findall(s))] when a marker is non-empty). *)
Fixpoint count_scan (m : markers) (skip : nat) (s : text) : nat :=
  match s with
  | [] => 0
  | _ :: s' =>
      match skip with
      | S k => count_scan m k s'
      | O =>
          match match_here m s with
          | Some (S n) => S (count_scan m n s')
          | Some O => S (count_scan m 0 s')
          | None => count_scan m 0 s'
          end
      end
  end.

Definition count_sections (m : markers) (s : text) : nat := count_scan m 0 s.

(** [remove_existing_section]. *)
Definition remove_existing_section (m : markers) (content : text) : text :=
  strip (sub m content).

(** ** The alias section *)

Section Generation.

(** [str(self.script_dir / script_name)], the path arithmetic of
    [pathlib], which depends on the installation directory. *)
Variable script_path_str : text -> text.

Definition get_script_absolute_path (script_name : text) : text :=
  replace_backslash (script_path_str script_name).

Definition dot_sh : text := codes ".sh".
Definition dot_py : text := codes ".py".
Definition fun_def : text := codes "(){".
Definition quote : text := [34%N].

(** The line one alias contributes (the body of the loop). *)
Definition alias_line (item : text * text) : text :=
  let (alias_name, command) := item in
  if contains fun_def command then command
  else if endswith dot_sh command || endswith dot_py command then
    let script_path := get_script_absolute_path command in
    if endswith dot_sh command then
      codes "alias " ++ alias_name ++ codes "=" ++ quote
        ++ script_path ++ quote
    else
      codes "alias " ++ alias_name ++ codes "=" ++ quote
        ++ codes "python3 " ++ script_path ++ quote
  else
    codes "alias " ++ alias_name ++ codes "=" ++ quote ++ command ++ quote.

(** The lines between the two marker lines. *)
Definition alias_lines (aliases : list (text * text)) : list text :=
  [codes "# Aliases for local helper scripts";
   codes "# Generated automatically by setup.py";
   []]
  ++ map alias_line aliases ++ [[]].

(** [generate_alias_content]; [aliases] is [self.aliases.items()]. *)
Definition generate_alias_content (m : markers)
    (aliases : list (text * text)) : text :=
  join [LF] ([m_start m] ++ alias_lines aliases ++ [m_end m]).

(** The text of those lines, the body of the section. *)
Definition alias_body (aliases : list (text * text)) : text :=
  join [LF] (alias_lines aliases).

End Generation.

(** ** [update_shell_config] *)

(** A body between its two marker lines. *)
Definition wrap (m : markers) (body : text) : text :=
  m_start m ++ [LF] ++ body ++ [LF] ++ m_end m.

(** [new_content] after the conditional removal (lines 143-147). *)
Definition new_content (m : markers) (current_content : text) : text :=
  match find_existing_section m current_content with
  | Some _ => remove_existing_section m current_content
  | None => current_content
  end.

(** Adding the section (lines 151-154). *)
Definition add_section (new_content alias_content : text) : text :=
  match new_content with
  | [] => alias_content
  | _ :: _ => new_content ++ [LF; LF] ++ alias_content
  end.

(** What the function turns the text read from the file into, for a given
    section text. *)
Definition update_text (m : markers) (alias_content file_text : text) : text :=
  let current_content := strip file_text in
  add_section (new_content m current_content) alias_content.

(** The two files the function touches: the configuration file and its
    backup copy; [None] is a path that does not exist. *)
Record files := Files { config : option text; backup : option text }.

(** [config_path.touch()]: an empty file is created if there is none. *)
Definition touch (fs : files) : files :=
  match config fs with
  | Some _ => fs
  | None => Files (Some []) (backup fs)
  end.

(** [config_path.read_text()]. *)
Definition read_text (fs : files) : text :=
  match config fs with
  | Some t => t
  | None => []
  end.

(** [backup_file]: the file, if it exists, is copied over the backup. *)
Definition backup_file (fs : files) : files :=
  match config fs with
  | Some t => Files (config fs) (Some t)
  | None => fs
  end.

(** [config_path.write_text(s)]. *)
Definition write_text (s : text) (fs : files) : files :=
  Files (Some s) (backup fs).

Definition update_shell_config (script_path_str : text -> text)
    (m : markers) (aliases : list (text * text)) (fs : files) : files :=
  let fs := touch fs in
  let file_text := read_text fs in
  let fs := backup_file fs in
  write_text
    (update_text m (generate_alias_content script_path_str m aliases)
       file_text)
    fs.

(** The merge of a document with a generated body under a marker pair:
    [update_shell_config]'s text transformation, the body wrapped in the
    markers. *)
Definition merge (m : markers) (d g : text) : text :=
  update_text m (wrap m g) d.

(** Markers for which a section written by [merge] can be found again:
    both non-empty, each on one line, no white space at the outer ends. *)
Definition nonspace_head (s : text) : bool :=
  match s with [] => false | c :: _ => negb (is_space c) end.

Definition well_formed (m : markers) : bool :=
  nonspace_head (m_start m) && nonspace_head (rev (m_end m))
  && negb (existsb (N.eqb LF) (m_start m))
  && negb (existsb (N.eqb LF) (m_end m)).

(** A text that [strip] leaves alone. *)
Definition stripped (s : text) : Prop := lstrip s = s /\ rstrip s = s.

(** The old text with the separator [add_section] puts after it. *)
Definition lead (r : text) : text :=
  match r with
  | [] => []
  | _ :: _ => r ++ [LF; LF]
  end.

(** ** The contract of the specification *)

(** A text in which no marker is left outside a complete section: once
    every start-to-end span is taken away, neither marker remains. *)
Definition spec_no_partial_marker (m : markers) (t : text) : bool :=
  negb (contains (m_start m) (sub m t)) && negb (contains (m_end m) (sub m t)).

(** The merge the specification describes for markers it rejects: [None]
    stands for its InvalidMarkerError. *)
Definition spec_checked_merge (m : markers) (d g : text) : option text :=
  match m_start m, m_end m with
  | [], _ | _, [] => None
  | _ :: _, _ :: _ => Some (merge m d g)
  end.

(** ** Sample texts *)

Definition lines (l : list text) : text := join [LF] l.

Definition begin_end : markers := Markers (codes "## BEGIN") (codes "## END").

Definition path_line : text := codes "export PATH=/usr/bin".
Definition alias_ll : text := codes "alias ll='ls -la'".
Definition alias_gs : text := codes "alias gs='git status'".
Definition TAB : char := 9%N.

(** ** [load_aliases_from_file] *)

Fixpoint text_eqb (a b : text) : bool :=
  match a, b with
  | [], [] => true
  | x :: a', y :: b' => (x =? y)%N && text_eqb a' b'
  | _, _ => false
  end.

(** Iterating over the open file: its lines, each with its line feed (the
    last one has none when the text does not end with one). *)
Fixpoint readlines (s : text) : list text :=
  match s with
  | [] => []
  | c :: s' =>
      if (c =? LF)%N then [c] :: readlines s'
      else match readlines s' with
           | [] => [[c]]
           | l :: ls => (c :: l) :: ls
           end
  end.

(** [s.split(sep, 1)] for a non-empty separator. *)
Definition split1 (sep s : text) : list text :=
  match index_of sep s with
  | Some i => [firstn i s; skipn (i + length sep) s]
  | None => [s]
  end.

(** The [aliases] dict: keys in insertion order; assigning to a key that
    is present replaces its value where it stands. *)
Definition dict := list (text * text).

Fixpoint dict_set (d : dict) (k v : text) : dict :=
  match d with
  | [] => [(k, v)]
  | (k', v') :: d' =>
      if text_eqb k' k then (k', v) :: d' else (k', v') :: dict_set d' k v
  end.

Fixpoint dict_get (d : dict) (k : text) : option text :=
  match d with
  | [] => None
  | (k', v') :: d' => if text_eqb k' k then Some v' else dict_get d' k
  end.

Definition hash : text := codes "#".
Definition eq_sign : text := codes "=".
Definition single_quote : text := [39%N].

(** Removing surrounding quotes: [command[1:-1]] when the command starts
    and ends with the same kind of quote. *)
Definition unquote (command : text) : text :=
  if (startswith quote command && endswith quote command)
     || (startswith single_quote command && endswith single_quote command)
  then removelast (tl command)
  else command.

(** What one line of the file amounts to (the body of the loop, lines
    30-60): nothing, an assignment [aliases[alias_name] = command], or a
    warning. *)
Inductive parsed :=
| Ignored
| Entry (alias_name command : text)
| Invalid.

Definition parse_line (raw : text) : parsed :=
  let line := strip raw in
  match line with
  | [] => Ignored
  | _ :: _ =>
      if startswith hash line then Ignored
      else if contains fun_def line then
        Entry (strip (nth 0 (split1 fun_def line) [])) line
      else if contains eq_sign line then
        let parts := split1 eq_sign line in
        if length parts =? 2 then
          Entry (strip (nth 0 parts [])) (unquote (strip (nth 1 parts [])))
        else Invalid
      else Invalid
  end.

(** A line that is neither blank, nor a comment, nor a function
    definition, nor an assignment. *)
Definition is_invalid (raw : text) : bool :=
  let line := strip raw in
  match line with
  | [] => false
  | _ :: _ =>
      negb (startswith hash line) && negb (contains fun_def line)
      && negb (contains eq_sign line)
  end.

(** The loop over the numbered lines; the state is the dict and the line
    numbers warned about, in the order of the warnings. *)
Definition load_line (st : dict * list nat) (line_number : nat) (raw : text)
  : dict * list nat :=
  match parse_line raw with
  | Ignored => st
  | Entry alias_name command => (dict_set (fst st) alias_name command, snd st)
  | Invalid => (fst st, snd st ++ [line_number])
  end.

Fixpoint load_lines (st : dict * list nat) (line_number : nat)
    (ls : list text) : dict * list nat :=
  match ls with
  | [] => st
  | raw :: ls' => load_lines (load_line st line_number raw) (S line_number) ls'
  end.

(** [alias_file] is the text of alias.txt, [None] when there is no such
    file. *)
Definition load_aliases_from_file (alias_file : option text)
  : dict * list nat :=
  match alias_file with
  | None => ([], [])
  | Some t => load_lines ([], []) 1 (readlines t)
  end.

(** ** [verify_scripts_exist] *)

Section Verification.

(** [(self.script_dir / command).exists()]. *)
Variable script_exists : text -> bool.

Definition missing_scripts (aliases : dict) : list text :=
  map snd
    (filter (fun item =>
               (endswith dot_sh (snd item) || endswith dot_py (snd item))
               && negb (script_exists (snd item)))
       aliases).

Definition verify_scripts_exist (aliases : dict) : bool :=
  length (missing_scripts aliases) =? 0.

End Verification.

(** ** [run] *)

(** The two configuration files, each with its backup, and the lines
    still to be read from standard input. *)
Record world := World { bashrc : files; zshrc : files; stdin : list text }.

(** [run] returns, or [input()] finds no line and raises, or
    [Path.exists()] raises in [verify_scripts_exist]; the world is the
    one at that moment.  The two configuration files themselves are
    taken to be readable and writable. *)
Inductive outcome :=
| Finished (w : world)
| EOFError (w : world)
| OSError (w : world).

Section Run.

Variable script_path_str : text -> text.

(** [str.lower]. *)
Variable lower : text -> text.

(** [(self.script_dir / command).exists()] as [run] meets it: its answer,
    or [None] when the call raises (a name longer than the system
    allows). *)
Variable script_probe : text -> option bool.

(** The call of [verify_scripts_exist] in [run]: its result, or [None]
    when a probe raises. *)
Fixpoint verify_scripts_exist_raising (aliases : dict) : option bool :=
  match aliases with
  | [] => Some true
  | (_, command) :: aliases' =>
      if endswith dot_sh command || endswith dot_py command then
        match script_probe command with
        | None => None
        | Some found =>
            option_map (andb found) (verify_scripts_exist_raising aliases')
        end
      else verify_scripts_exist_raising aliases'
  end.

(** [path.exists() or input(...).lower() == "y"]: the answer and the
    input left; [None] when [input()] raises. *)
Definition confirm (fs : files) (inp : list text)
  : option (bool * list text) :=
  match config fs with
  | Some _ => Some (true, inp)
  | None =>
      match inp with
      | [] => None
      | answer :: rest => Some (text_eqb (lower answer) (codes "y"), rest)
      end
  end.

(** The configuration part of [run] (lines 220-233). *)
Definition update_configurations (m : markers) (aliases : dict) (w : world)
  : outcome :=
  match confirm (bashrc w) (stdin w) with
  | None => EOFError w
  | Some (yes, inp) =>
      let w1 :=
        World (if yes
               then update_shell_config script_path_str m aliases (bashrc w)
               else bashrc w)
              (zshrc w) inp in
      match confirm (zshrc w1) (stdin w1) with
      | None => EOFError w1
      | Some (yes', inp') =>
          Finished
            (World (bashrc w1)
               (if yes'
                then update_shell_config script_path_str m aliases (zshrc w1)
                else zshrc w1)
               inp')
      end
  end.

(** [run]: with no alias it returns at once; [display_aliases] only
    prints; the result of [verify_scripts_exist] decides a print only,
    but the call may raise. *)
Definition run (m : markers) (aliases : dict) (w : world) : outcome :=
  match aliases with
  | [] => Finished w
  | _ :: _ =>
      match verify_scripts_exist_raising aliases with
      | None => OSError w
      | Some _ => update_configurations m aliases w
      end
  end.

End Run.

(** [str.lower] on texts of ASCII letters. *)
Definition ascii_lower (s : text) : text :=
  map (fun c => if (65 <=? c)%N && (c <=? 90)%N then (c + 32)%N else c) s.

(** ** White space *)

Lemma nonspace_head_app (a b : text) :
  nonspace_head a = true -> nonspace_head (a ++ b) = true.
Proof. destruct a; simpl; [discriminate | trivial]. Qed.

Lemma lstrip_nonspace (s : text) : nonspace_head s = true -> lstrip s = s.
Proof.
  destruct s as [|c s]; simpl; intros H; [discriminate|].
  apply negb_true_iff in H. now rewrite H.
Qed.

Lemma lstrip_length (s : text) : length (lstrip s) <= length s.
Proof.
  induction s as [|c s IH]; simpl; [lia|].
  destruct (is_space c); simpl; lia.
Qed.

Lemma lstrip_fixed_head (s : text) :
  lstrip s = s -> s <> [] -> nonspace_head s = true.
Proof.
  destruct s as [|c s]; simpl; intros H Hne; [congruence|].
  destruct (is_space c) eqn:Hc; [|reflexivity].
  pose proof (lstrip_length s) as Hl. rewrite H in Hl. simpl in Hl. lia.
Qed.

Lemma lstrip_idem (s : text) : lstrip (lstrip s) = lstrip s.
Proof.
  induction s as [|c s IH]; simpl; [reflexivity|].
  destruct (is_space c) eqn:Hc; [exact IH|]. simpl. now rewrite Hc.
Qed.

Lemma lstrip_snoc_nonspace (l : text) (x : char) :
  is_space x = false -> lstrip (l ++ [x]) = lstrip l ++ [x].
Proof.
  intros Hx. induction l as [|c l IH]; simpl.
  - now rewrite Hx.
  - destruct (is_space c); [exact IH | reflexivity].
Qed.

Lemma rstrip_nonspace (s : text) :
  nonspace_head (rev s) = true -> rstrip s = s.
Proof.
  intros H. unfold rstrip. rewrite (lstrip_nonspace _ H). apply rev_involutive.
Qed.

Lemma rstrip_idem (s : text) : rstrip (rstrip s) = rstrip s.
Proof. unfold rstrip. now rewrite rev_involutive, lstrip_idem. Qed.

Lemma rstrip_cons_nonspace (x : char) (t : text) :
  is_space x = false -> rstrip (x :: t) = x :: rstrip t.
Proof.
  intros Hx. unfold rstrip. simpl.
  rewrite (lstrip_snoc_nonspace _ _ Hx), rev_app_distr. reflexivity.
Qed.

Lemma lstrip_rstrip (t : text) : lstrip t = t -> lstrip (rstrip t) = rstrip t.
Proof.
  intros H. destruct t as [|x t]; [reflexivity|].
  assert (Hx : is_space x = false).
  { apply lstrip_fixed_head in H; [|discriminate].
    simpl in H. now apply negb_true_iff in H. }
  rewrite (rstrip_cons_nonspace _ _ Hx). simpl. now rewrite Hx.
Qed.

Lemma stripped_strip (d : text) : stripped (strip d).
Proof.
  unfold stripped, strip. split.
  - apply lstrip_rstrip, lstrip_idem.
  - apply rstrip_idem.
Qed.

Lemma strip_stripped (s : text) : stripped s -> strip s = s.
Proof. intros [Hl Hr]. unfold strip. now rewrite Hl. Qed.

Lemma strip_idem (d : text) : strip (strip d) = strip d.
Proof. apply strip_stripped, stripped_strip. Qed.

Lemma stripped_ends (a mid b : text) :
  nonspace_head a = true -> nonspace_head (rev b) = true ->
  stripped (a ++ mid ++ b).
Proof.
  intros Ha Hb. split.
  - apply lstrip_nonspace, nonspace_head_app, Ha.
  - apply rstrip_nonspace. rewrite !rev_app_distr, <- app_assoc.
    apply nonspace_head_app, Hb.
Qed.

Lemma stripped_head (r : text) :
  stripped r -> r <> [] -> nonspace_head r = true.
Proof. intros [Hl _]. now apply lstrip_fixed_head. Qed.

(** The separator [add_section] puts after the old text is white space:
    stripping gives the old text back. *)
Lemma strip_separator (r : text) : stripped r -> strip (r ++ [LF; LF]) = r.
Proof.
  intros Hr. pose proof Hr as [Hl Hrr]. unfold strip.
  destruct r as [|x r].
  - reflexivity.
  - rewrite (lstrip_nonspace ((x :: r) ++ [LF; LF])).
    + unfold rstrip. rewrite rev_app_distr. simpl rev at 2.
      change (lstrip (([LF] ++ [LF]) ++ rev (x :: r)))
        with (lstrip (rev (x :: r))).
      exact Hrr.
    + apply nonspace_head_app, stripped_head; [exact Hr | discriminate].
Qed.

(** ** Occurrences of a literal *)

Lemma startswith_app (p t : text) : startswith p (p ++ t) = true.
Proof.
  induction p as [|a p IH]; simpl; [reflexivity|].
  now rewrite N.eqb_refl.
Qed.

Lemma startswith_length (p s : text) :
  startswith p s = true -> length p <= length s.
Proof.
  revert s. induction p as [|a p IH]; intros [|b s]; simpl; intros H;
    try lia; try discriminate.
  apply andb_true_iff in H. destruct H as [_ H]. apply IH in H. lia.
Qed.

Lemma startswith_nil_r (p : text) : p <> [] -> startswith p [] = false.
Proof. destruct p; [congruence | reflexivity]. Qed.

(** A character that the literal does not contain cannot be inside an
    occurrence of it. *)
Lemma startswith_sep (c : char) (p a t : text) :
  existsb (N.eqb c) p = false ->
  startswith p (a ++ c :: t) = startswith p a.
Proof.
  revert a. induction p as [|x p IH]; intros a Hc; [reflexivity|].
  simpl in Hc. apply orb_false_iff in Hc. destruct Hc as [Hx Hp].
  destruct a as [|y a]; simpl.
  - rewrite N.eqb_sym, Hx. reflexivity.
  - now rewrite IH.
Qed.

Lemma index_of_head (p t : text) : index_of p (p ++ t) = Some 0.
Proof.
  destruct (p ++ t) eqn:E; simpl; rewrite <- E, startswith_app; reflexivity.
Qed.

Lemma index_of_here (p s : text) :
  startswith p s = true -> index_of p s = Some 0.
Proof. intros H. destruct s; simpl index_of; now rewrite H. Qed.

Lemma index_of_nil_r (p : text) : p <> [] -> index_of p [] = None.
Proof. intros H. simpl. now rewrite startswith_nil_r. Qed.

Lemma index_of_cons (p : text) (c : char) (s : text) :
  startswith p (c :: s) = false ->
  index_of p (c :: s) = option_map S (index_of p s).
Proof. intros H. simpl index_of. now rewrite H. Qed.

Lemma index_of_sep (c : char) (p a t : text) :
  existsb (N.eqb c) p = false -> p <> [] ->
  index_of p (a ++ c :: t) =
  match index_of p a with
  | Some i => Some i
  | None => option_map (fun k => length a + 1 + k) (index_of p t)
  end.
Proof.
  intros Hc Hp. induction a as [|y a IH].
  - rewrite (index_of_nil_r _ Hp). simpl app.
    rewrite index_of_cons.
    + destruct (index_of p t); reflexivity.
    + change (c :: t) with ([] ++ c :: t).
      rewrite (startswith_sep c p [] t Hc). now apply startswith_nil_r.
  - change ((y :: a) ++ c :: t) with (y :: (a ++ c :: t)).
    destruct (startswith p (y :: a)) eqn:Hs.
    + assert (Hs' : startswith p (y :: a ++ c :: t) = true).
      { change (y :: a ++ c :: t) with ((y :: a) ++ c :: t).
        now rewrite startswith_sep. }
      simpl index_of. rewrite Hs, Hs'. reflexivity.
    + assert (Hs' : startswith p (y :: a ++ c :: t) = false).
      { change (y :: a ++ c :: t) with ((y :: a) ++ c :: t).
        now rewrite startswith_sep. }
      rewrite (index_of_cons _ _ _ Hs), (index_of_cons _ _ _ Hs'), IH.
      destruct (index_of p a); simpl; [reflexivity|].
      destruct (index_of p t); reflexivity.
Qed.

Lemma index_of_bound (p s : text) (k : nat) :
  index_of p s = Some k -> k + length p <= length s.
Proof.
  revert k. induction s as [|c s IH]; intros k; simpl index_of.
  - destruct (startswith p []) eqn:Hs; [|discriminate].
    intros [= <-]. apply startswith_length in Hs. simpl in *. lia.
  - destruct (startswith p (c :: s)) eqn:Hs.
    + intros [= <-]. apply startswith_length in Hs. simpl in *. lia.
    + destruct (index_of p s) as [j|]; [|discriminate].
      intros [= <-]. specialize (IH j eq_refl). simpl. lia.
Qed.

Lemma index_of_none_tail (p : text) (c : char) (s : text) :
  index_of p (c :: s) = None -> index_of p s = None.
Proof.
  simpl index_of. destruct (startswith p (c :: s)); [discriminate|].
  destruct (index_of p s); [discriminate | reflexivity].
Qed.

Lemma index_of_none_skipn (p s : text) (k : nat) :
  index_of p s = None -> index_of p (skipn k s) = None.
Proof.
  revert s. induction k as [|k IH]; intros s H; [exact H|].
  destruct s as [|c s]; [exact H|].
  simpl. apply IH. now apply index_of_none_tail in H.
Qed.

Lemma contains_false (p s : text) :
  contains p s = false -> index_of p s = None.
Proof. unfold contains. destruct (index_of p s); [discriminate | trivial]. Qed.

(** ** The search *)

Lemma match_here_length (m : markers) (s : text) (n : nat) :
  match_here m s = Some n -> n <= length s.
Proof.
  unfold match_here. destruct (startswith (m_start m) s) eqn:Hs; [|discriminate].
  destruct (index_of _ _) as [k|] eqn:Hk; [|discriminate].
  intros [= <-]. apply index_of_bound in Hk. apply startswith_length in Hs.
  rewrite length_skipn in Hk. lia.
Qed.

(** The search finds the first occurrence of the start marker and the
    first occurrence of the end marker after it. *)
Lemma search_found (m : markers) (c : text) (i k : nat) :
  index_of (m_start m) c = Some i ->
  index_of (m_end m) (skipn (i + length (m_start m)) c) = Some k ->
  search m c = Some (i, length (m_start m) + k + length (m_end m)).
Proof.
  revert i. induction c as [|x c IH]; intros i Hi Hk.
  - simpl in Hi. destruct (startswith (m_start m) []) eqn:Hs; [|discriminate].
    injection Hi as <-. simpl in Hk. simpl search. unfold match_here.
    now rewrite Hs, Hk.
  - simpl in Hi. destruct (startswith (m_start m) (x :: c)) eqn:Hs.
    + injection Hi as <-. simpl in Hk. simpl search. unfold match_here.
      now rewrite Hs, Hk.
    + destruct (index_of (m_start m) c) as [j|] eqn:Hj; [|discriminate].
      injection Hi as <-. simpl search. unfold match_here at 1. rewrite Hs.
      now rewrite (IH j eq_refl Hk).
Qed.

(** No end marker after the first [length start] characters: no match. *)
Lemma search_no_end (m : markers) (c : text) :
  index_of (m_end m) (skipn (length (m_start m)) c) = None ->
  search m c = None.
Proof.
  induction c as [|x c IH]; intros H.
  - simpl search. unfold match_here. rewrite H.
    now destruct (startswith (m_start m) []).
  - simpl search. unfold match_here at 1. rewrite H.
    assert (Hc : search m c = None).
    { apply IH. destruct (length (m_start m)) as [|n].
      - simpl in H |- *. now apply index_of_none_tail in H.
      - simpl in H. rewrite <- (Nat.add_1_r n), Nat.add_comm, <- skipn_skipn.
        now apply index_of_none_skipn. }
    rewrite Hc. now destruct (startswith (m_start m) (x :: c)).
Qed.

(** A start marker with no end marker after it is no match, and neither
    is anything to its right. *)
Lemma search_unmatched (m : markers) (c : text) (i : nat) :
  index_of (m_start m) c = Some i ->
  index_of (m_end m) (skipn (i + length (m_start m)) c) = None ->
  search m c = None.
Proof.
  revert i. induction c as [|x c IH]; intros i Hi Hk.
  - apply search_no_end. rewrite skipn_nil in *. exact Hk.
  - simpl in Hi. destruct (startswith (m_start m) (x :: c)) eqn:Hs.
    + injection Hi as <-. now apply search_no_end.
    + destruct (index_of (m_start m) c) as [j|] eqn:Hj; [|discriminate].
      injection Hi as <-. simpl search. unfold match_here at 1. rewrite Hs.
      now rewrite (IH j eq_refl Hk).
Qed.

(** What a match consists of. *)
Lemma search_inv (m : markers) (c : text) (i n : nat) :
  search m c = Some (i, n) ->
  exists k,
    n = length (m_start m) + k + length (m_end m)
    /\ startswith (m_start m) (skipn i c) = true
    /\ index_of (m_end m) (skipn (i + length (m_start m)) c) = Some k.
Proof.
  revert i. induction c as [|x c IH]; intros i; simpl search.
  - destruct (match_here m []) as [n'|] eqn:Hm; [|discriminate].
    intros [= <- <-]. unfold match_here in Hm.
    destruct (startswith (m_start m) []) eqn:Hs; [|discriminate].
    destruct (index_of _ _) as [k|] eqn:Hk; [|discriminate].
    injection Hm as <-. exists k. auto.
  - destruct (match_here m (x :: c)) as [n'|] eqn:Hm.
    + intros [= <- <-]. unfold match_here in Hm.
      destruct (startswith (m_start m) (x :: c)) eqn:Hs; [|discriminate].
      destruct (index_of _ _) as [k|] eqn:Hk; [|discriminate].
      injection Hm as <-. exists k. auto.
    + destruct (search m c) as [[j n']|] eqn:Hc; [|discriminate].
      intros [= <- <-]. destruct (IH j eq_refl) as (k & Hn & Hs & Hk).
      exists k. auto.
Qed.

(** ** The removal *)

Lemma sub_scan_skip (m : markers) (k : nat) (s : text) :
  sub_scan m k s = sub m (skipn k s).
Proof.
  revert s. induction k as [|k IH]; intros s; [reflexivity|].
  destruct s as [|c s]; [reflexivity|]. simpl. apply IH.
Qed.

Lemma count_scan_skip (m : markers) (k : nat) (s : text) :
  count_scan m k s = count_sections m (skipn k s).
Proof.
  revert s. induction k as [|k IH]; intros s; [reflexivity|].
  destruct s as [|c s]; [reflexivity|]. simpl. apply IH.
Qed.

(** [sub] in terms of [search]: the first match goes, and the removal
    carries on in the text after it. *)
Lemma sub_search_some (m : markers) (c : text) (i n : nat) :
  search m c = Some (i, n) -> 0 < n ->
  sub m c = firstn i c ++ sub m (skipn (i + n) c).
Proof.
  revert i. induction c as [|x c IH]; intros i; simpl search.
  - destruct (match_here m []) as [n'|] eqn:Hm; [|discriminate].
    intros [= <- <-] Hn. apply match_here_length in Hm. simpl in Hm. lia.
  - destruct (match_here m (x :: c)) as [n'|] eqn:Hm.
    + intros [= <- <-] Hn. destruct n' as [|n']; [lia|].
      unfold sub at 1. simpl sub_scan. rewrite Hm. apply sub_scan_skip.
    + destruct (search m c) as [[j n']|] eqn:Hc; [|discriminate].
      intros [= <- <-] Hn. unfold sub at 1. simpl sub_scan. rewrite Hm.
      simpl. f_equal. exact (IH j eq_refl Hn).
Qed.

Lemma sub_search_none (m : markers) (c : text) :
  search m c = None -> sub m c = c.
Proof.
  induction c as [|x c IH]; [reflexivity|]. simpl search.
  destruct (match_here m (x :: c)) as [n'|] eqn:Hm; [discriminate|].
  destruct (search m c) as [[j n']|] eqn:Hc; [discriminate|].
  intros _. unfold sub. simpl sub_scan. rewrite Hm. f_equal. now apply IH.
Qed.

Lemma count_search_some (m : markers) (c : text) (i n : nat) :
  search m c = Some (i, n) -> 0 < n ->
  count_sections m c = S (count_sections m (skipn (i + n) c)).
Proof.
  revert i. induction c as [|x c IH]; intros i; simpl search.
  - destruct (match_here m []) as [n'|] eqn:Hm; [|discriminate].
    intros [= <- <-] Hn. apply match_here_length in Hm. simpl in Hm. lia.
  - destruct (match_here m (x :: c)) as [n'|] eqn:Hm.
    + intros [= <- <-] Hn. destruct n' as [|n']; [lia|].
      unfold count_sections at 1. simpl count_scan. rewrite Hm.
      simpl skipn. f_equal. apply count_scan_skip.
    + destruct (search m c) as [[j n']|] eqn:Hc; [|discriminate].
      intros [= <- <-] Hn. unfold count_sections at 1. simpl count_scan.
      rewrite Hm. exact (IH j eq_refl Hn).
Qed.

(** ** A section written by [add_section] is found again *)

Lemma skipn_length_app (a b : text) : skipn (length a) (a ++ b) = b.
Proof. induction a as [|x a IH]; [reflexivity | exact IH]. Qed.

Lemma firstn_length_app (a b : text) : firstn (length a) (a ++ b) = a.
Proof. induction a as [|x a IH]; [reflexivity | simpl; now rewrite IH]. Qed.

Lemma nonspace_head_nonnil (s : text) : nonspace_head s = true -> s <> [].
Proof. destruct s; [discriminate | discriminate]. Qed.

Lemma well_formed_inv (m : markers) :
  well_formed m = true ->
  nonspace_head (m_start m) = true
  /\ nonspace_head (rev (m_end m)) = true
  /\ existsb (N.eqb LF) (m_start m) = false
  /\ existsb (N.eqb LF) (m_end m) = false
  /\ m_start m <> [] /\ m_end m <> [].
Proof.
  unfold well_formed. intros H.
  apply andb_true_iff in H. destruct H as [H H4].
  apply andb_true_iff in H. destruct H as [H H3].
  apply andb_true_iff in H. destruct H as [H1 H2].
  apply negb_true_iff in H3, H4.
  repeat split; trivial.
  - now apply nonspace_head_nonnil.
  - intros E. rewrite E in H2. discriminate.
Qed.

Lemma add_section_lead (r b : text) : add_section r b = lead r ++ b.
Proof.
  destruct r as [|x r]; [reflexivity|].
  unfold add_section, lead. now rewrite <- app_assoc.
Qed.

Lemma strip_lead (r : text) : stripped r -> strip (lead r) = r.
Proof.
  intros Hr. destruct r as [|x r]; [reflexivity|].
  now apply strip_separator.
Qed.

Lemma wrap_length (m : markers) (g : text) :
  length (wrap m g) = length (m_start m) + (1 + (length g + 1 + 0)) + length (m_end m).
Proof. unfold wrap. rewrite !length_app. simpl. lia. Qed.

Lemma wrap_nonempty (m : markers) (g : text) : 0 < length (wrap m g).
Proof. rewrite wrap_length. lia. Qed.

Lemma index_of_start_lead (m : markers) (r t : text) :
  well_formed m = true ->
  contains (m_start m) r = false ->
  index_of (m_start m) (lead r ++ m_start m ++ t) = Some (length (lead r)).
Proof.
  intros Hwf Hr. destruct (well_formed_inv m Hwf) as (_ & _ & HS & _ & HnS & _).
  apply contains_false in Hr.
  destruct r as [|x r]; [exact (index_of_head (m_start m) t)|].
  unfold lead. rewrite <- app_assoc.
  change ([LF; LF] ++ m_start m ++ t) with (LF :: ([] ++ LF :: (m_start m ++ t))).
  rewrite (index_of_sep LF _ _ _ HS HnS), Hr.
  rewrite (index_of_sep LF _ _ _ HS HnS), (index_of_nil_r _ HnS).
  rewrite index_of_head, length_app. simpl. f_equal. lia.
Qed.

Lemma index_of_end_wrap (m : markers) (g : text) :
  well_formed m = true ->
  contains (m_end m) g = false ->
  index_of (m_end m) ([LF] ++ g ++ [LF] ++ m_end m)
  = Some (1 + (length g + 1 + 0)).
Proof.
  intros Hwf Hg. destruct (well_formed_inv m Hwf) as (_ & _ & _ & HE & _ & HnE).
  apply contains_false in Hg.
  change ([LF] ++ g ++ [LF] ++ m_end m) with ([] ++ LF :: (g ++ LF :: m_end m)).
  rewrite (index_of_sep LF _ _ _ HE HnE), (index_of_nil_r _ HnE).
  rewrite (index_of_sep LF _ _ _ HE HnE), Hg.
  rewrite <- (app_nil_r (m_end m)) at 2. rewrite index_of_head. reflexivity.
Qed.

(** In the text [add_section] builds, the only match of the pattern the
    search meets is the section just written. *)
Lemma search_add_section (m : markers) (r g : text) :
  well_formed m = true ->
  contains (m_start m) r = false ->
  contains (m_end m) g = false ->
  search m (add_section r (wrap m g))
  = Some (length (lead r), length (wrap m g)).
Proof.
  intros Hwf Hr Hg. rewrite add_section_lead, wrap_length. unfold wrap.
  apply search_found.
  - now apply index_of_start_lead.
  - rewrite app_assoc, <- length_app, skipn_length_app.
    now apply index_of_end_wrap.
Qed.

Lemma skipn_add_section (r b : text) :
  skipn (length (lead r) + length b) (add_section r b) = [].
Proof.
  rewrite add_section_lead, <- length_app.
  rewrite <- (app_nil_r (lead r ++ b)) at 2. apply skipn_length_app.
Qed.

Lemma sub_add_section (m : markers) (r g : text) :
  well_formed m = true ->
  contains (m_start m) r = false ->
  contains (m_end m) g = false ->
  sub m (add_section r (wrap m g)) = lead r.
Proof.
  intros Hwf Hr Hg.
  rewrite (sub_search_some m _ _ _ (search_add_section m r g Hwf Hr Hg)
             (wrap_nonempty m g)).
  rewrite skipn_add_section, add_section_lead, firstn_length_app.
  apply app_nil_r.
Qed.

Lemma count_add_section (m : markers) (r g : text) :
  well_formed m = true ->
  contains (m_start m) r = false ->
  contains (m_end m) g = false ->
  count_sections m (add_section r (wrap m g)) = 1.
Proof.
  intros Hwf Hr Hg.
  rewrite (count_search_some m _ _ _ (search_add_section m r g Hwf Hr Hg)
             (wrap_nonempty m g)).
  now rewrite skipn_add_section.
Qed.

Lemma stripped_add_section (m : markers) (r g : text) :
  well_formed m = true -> stripped r ->
  stripped (add_section r (wrap m g)).
Proof.
  intros Hwf Hr. destruct (well_formed_inv m Hwf) as (HS & HE & _).
  destruct r as [|x r].
  - unfold add_section, wrap.
    replace (m_start m ++ [LF] ++ g ++ [LF] ++ m_end m)
      with (m_start m ++ ([LF] ++ g ++ [LF]) ++ m_end m)
      by (rewrite <- !app_assoc; reflexivity).
    now apply stripped_ends.
  - unfold add_section, wrap.
    replace ([LF; LF] ++ m_start m ++ [LF] ++ g ++ [LF] ++ m_end m)
      with (([LF; LF] ++ m_start m ++ [LF] ++ g ++ [LF]) ++ m_end m)
      by (rewrite <- !app_assoc; reflexivity).
    apply stripped_ends; [|exact HE].
    apply stripped_head; [exact Hr | discriminate].
Qed.

Lemma stripped_new_content (m : markers) (c : text) :
  stripped c -> stripped (new_content m c).
Proof.
  intros Hc. unfold new_content, find_existing_section, remove_existing_section.
  destruct (search m c); [apply stripped_strip | exact Hc].
Qed.

(** Updating a text that [add_section] built replaces its section. *)
Lemma update_add_section (m : markers) (r g b : text) :
  well_formed m = true -> stripped r ->
  contains (m_start m) r = false ->
  contains (m_end m) g = false ->
  update_text m b (add_section r (wrap m g)) = add_section r b.
Proof.
  intros Hwf Hs Hr Hg. unfold update_text.
  rewrite (strip_stripped _ (stripped_add_section m r g Hwf Hs)).
  unfold new_content, find_existing_section, remove_existing_section.
  rewrite (search_add_section m r g Hwf Hr Hg).
  rewrite (sub_add_section m r g Hwf Hr Hg), (strip_lead _ Hs). reflexivity.
Qed.

(** ** Searching a stripped text *)

Lemma startswith_app_r (p s t : text) :
  startswith p s = true -> startswith p (s ++ t) = true.
Proof.
  revert s. induction p as [|a p IH]; intros [|b s]; simpl; intros H;
    try reflexivity; try discriminate.
  apply andb_true_iff in H. destruct H as [H1 H2].
  now rewrite H1, (IH _ H2).
Qed.

Lemma index_of_app_r (p s t : text) (k : nat) :
  index_of p s = Some k -> exists k', index_of p (s ++ t) = Some k'.
Proof.
  revert k. induction s as [|c s IH]; intros k; simpl index_of.
  - destruct (startswith p []) eqn:Hs; [|discriminate]. intros _.
    destruct p; [|discriminate]. exists 0. now destruct t.
  - destruct (startswith p (c :: s)) eqn:Hs.
    + intros _. exists 0. apply (startswith_app_r _ _ t) in Hs.
      change ((c :: s) ++ t) with (c :: (s ++ t)) in Hs |- *.
      simpl index_of. now rewrite Hs.
    + destruct (index_of p s) as [j|]; [|discriminate]. intros _.
      destruct (IH j eq_refl) as [k' Hk'].
      change ((c :: s) ++ t) with (c :: (s ++ t)). simpl index_of. rewrite Hk'.
      destruct (startswith p (c :: s ++ t)); simpl; eauto.
Qed.

Lemma match_here_app_r (m : markers) (c t : text) (n : nat) :
  match_here m c = Some n -> exists n', match_here m (c ++ t) = Some n'.
Proof.
  unfold match_here.
  destruct (startswith (m_start m) c) eqn:Hs; [|discriminate].
  destruct (index_of _ _) as [k|] eqn:Hk; [|discriminate]. intros _.
  rewrite (startswith_app_r _ _ t Hs).
  apply startswith_length in Hs.
  rewrite skipn_app. replace (length (m_start m) - length c) with 0 by lia.
  destruct (index_of_app_r _ _ t _ Hk) as [k' Hk'].
  simpl skipn at 2. rewrite Hk'. eauto.
Qed.

Lemma search_tail (m : markers) (x : char) (c : text) :
  search m (x :: c) = None -> search m c = None.
Proof.
  simpl search. destruct (match_here m (x :: c)); [discriminate|].
  destruct (search m c) as [[j n]|]; [discriminate | reflexivity].
Qed.

Lemma search_match_here (m : markers) (s : text) (n : nat) :
  match_here m s = Some n -> search m s = Some (0, n).
Proof. intros H. destruct s; simpl search; now rewrite H. Qed.

Lemma search_app_r (m : markers) (c t : text) :
  search m (c ++ t) = None -> search m c = None.
Proof.
  induction c as [|x c IH]; intros H.
  - simpl search. destruct (match_here m []) as [n|] eqn:Hm; [|reflexivity].
    destruct (match_here_app_r m [] t n Hm) as [n' Hn'].
    rewrite (search_match_here m _ n' Hn') in H. discriminate.
  - destruct (match_here m (x :: c)) as [n|] eqn:Hm.
    + destruct (match_here_app_r m (x :: c) t n Hm) as [n' Hn'].
      rewrite (search_match_here m _ n' Hn') in H. discriminate.
    + change ((x :: c) ++ t) with (x :: (c ++ t)) in H.
      apply search_tail in H. simpl search. now rewrite Hm, (IH H).
Qed.

Lemma search_lstrip (m : markers) (c : text) :
  search m c = None -> search m (lstrip c) = None.
Proof.
  induction c as [|x c IH]; intros H; [exact H|]. simpl.
  destruct (is_space x); [|exact H]. apply IH. now apply search_tail in H.
Qed.

Lemma lstrip_suffix (s : text) : exists w, s = w ++ lstrip s.
Proof.
  induction s as [|c s [w IH]]; [now exists []|]. simpl.
  destruct (is_space c).
  - exists (c :: w). simpl. now f_equal.
  - now exists [].
Qed.

Lemma rstrip_prefix (s : text) : exists t, s = rstrip s ++ t.
Proof.
  destruct (lstrip_suffix (rev s)) as [w Hw]. exists (rev w).
  unfold rstrip. rewrite <- rev_app_distr, <- Hw. symmetry. apply rev_involutive.
Qed.

(** A text without a match has none once it is stripped. *)
Lemma search_strip (m : markers) (d : text) :
  search m d = None -> search m (strip d) = None.
Proof.
  intros H. apply search_lstrip in H. unfold strip.
  destruct (rstrip_prefix (lstrip d)) as [t Ht]. rewrite Ht in H.
  exact (search_app_r m _ t H).
Qed.

(** ** The appended section is always found *)

Lemma index_of_app_some (p a t : text) :
  exists i, index_of p (a ++ p ++ t) = Some i /\ i <= length a.
Proof.
  induction a as [|x a (i & Hi & Hle)].
  - exists 0. split; [exact (index_of_head p t) | simpl; lia].
  - change ((x :: a) ++ p ++ t) with (x :: (a ++ p ++ t)). simpl index_of.
    destruct (startswith p (x :: a ++ p ++ t)).
    + exists 0. split; [reflexivity | lia].
    + exists (S i). rewrite Hi. split; [reflexivity | simpl; lia].
Qed.

Lemma search_wrapped (m : markers) (a mid : text) :
  search m (a ++ m_start m ++ mid ++ m_end m) <> None.
Proof.
  destruct (index_of_app_some (m_start m) a (mid ++ m_end m)) as (i & Hi & Hle).
  destruct (index_of (m_end m)
              (skipn (i + length (m_start m)) (a ++ m_start m ++ mid ++ m_end m)))
    as [k|] eqn:Hk.
  - rewrite (search_found m _ i k Hi Hk). discriminate.
  - exfalso. revert Hk.
    replace (a ++ m_start m ++ mid ++ m_end m)
      with ((a ++ m_start m ++ mid) ++ m_end m)
      by (rewrite <- !app_assoc; reflexivity).
    rewrite skipn_app.
    replace (i + length (m_start m) - length (a ++ m_start m ++ mid)) with 0
      by (rewrite !length_app; lia).
    simpl skipn at 2.
    destruct (index_of_app_some (m_end m)
                (skipn (i + length (m_start m)) (a ++ m_start m ++ mid)) [])
      as (j & Hj & _).
    rewrite app_nil_r in Hj. rewrite Hj. discriminate.
Qed.

(** ** The merge, unfolded *)

Lemma new_content_sub (m : markers) (c : text) :
  stripped c -> new_content m c = strip (sub m c).
Proof.
  intros Hc. unfold new_content, find_existing_section, remove_existing_section.
  destruct (search m c) eqn:Hs; [reflexivity|].
  now rewrite (sub_search_none m c Hs), (strip_stripped c Hc).
Qed.

Lemma merge_unfold (m : markers) (d g : text) :
  merge m d g = add_section (new_content m (strip d)) (wrap m g).
Proof. reflexivity. Qed.

Lemma merge_no_section (m : markers) (d g : text) :
  search m (strip d) = None ->
  merge m d g = add_section (strip d) (wrap m g).
Proof.
  intros H. rewrite merge_unfold. unfold new_content, find_existing_section.
  now rewrite H.
Qed.

(** [generate_alias_content] is the body between the two markers. *)
Lemma join_snoc (sep : text) (l : list text) (e : text) :
  l <> [] -> join sep (l ++ [e]) = join sep l ++ sep ++ e.
Proof.
  induction l as [|x l IH]; intros Hl; [congruence|].
  destruct l as [|y l]; [reflexivity|].
  change (join sep ((x :: y :: l) ++ [e]))
    with (x ++ sep ++ join sep ((y :: l) ++ [e])).
  rewrite IH by discriminate.
  change (join sep (x :: y :: l)) with (x ++ sep ++ join sep (y :: l)).
  now rewrite <- !app_assoc.
Qed.

Lemma generate_alias_content_wrap (f : text -> text) (m : markers)
    (aliases : list (text * text)) :
  generate_alias_content f m aliases = wrap m (alias_body f aliases).
Proof.
  unfold generate_alias_content, wrap, alias_body.
  change ([m_start m] ++ alias_lines f aliases ++ [m_end m])
    with (m_start m :: (alias_lines f aliases ++ [m_end m])).
  assert (Hne : alias_lines f aliases <> []) by (unfold alias_lines; discriminate).
  rewrite <- (join_snoc [LF] _ (m_end m) Hne).
  destruct (alias_lines f aliases ++ [m_end m]) eqn:E.
  - destruct (alias_lines f aliases); discriminate.
  - reflexivity.
Qed.

(** What [update_shell_config] writes is the merge of what it read with
    the generated body, and the backup is what it read. *)
Lemma update_shell_config_merge (f : text -> text) (m : markers)
    (aliases : list (text * text)) (fs : files) :
  update_shell_config f m aliases fs
  = Files (Some (merge m (read_text fs) (alias_body f aliases)))
          (Some (read_text fs)).
Proof.
  unfold update_shell_config, merge, write_text, backup_file, touch, read_text.
  rewrite generate_alias_content_wrap.
  destruct fs as [[t|] b]; reflexivity.
Qed.

(** ** Counting occurrences *)






(** ** Two empty markers *)

Lemma match_here_empty (s : text) : match_here (Markers [] []) s = Some 0.
Proof. unfold match_here. simpl. now destruct s. Qed.

Lemma sub_scan_cons (m : markers) (c : char) (s : text) :
  sub_scan m 0 (c :: s)
  = match match_here m (c :: s) with
    | Some (S n) => sub_scan m n s
    | Some O => sub_scan m 0 s
    | None => c :: sub_scan m 0 s
    end.
Proof. reflexivity. Qed.

Lemma sub_empty_markers (s : text) : sub (Markers [] []) s = [].
Proof.
  unfold sub. induction s as [|c s IH]; [reflexivity|].
  now rewrite sub_scan_cons, match_here_empty.
Qed.

(** ** Markers left over *)

Lemma contains_lead (p r : text) :
  existsb (N.eqb LF) p = false -> p <> [] ->
  contains p r = false -> contains p (lead r) = false.
Proof.
  intros Hp Hne Hr. destruct r as [|x r]; [exact Hr|].
  unfold lead, contains.
  change ((x :: r) ++ [LF; LF]) with ((x :: r) ++ LF :: ([] ++ LF :: [])).
  rewrite (index_of_sep LF _ _ _ Hp Hne), (contains_false _ _ Hr).
  rewrite (index_of_sep LF _ _ _ Hp Hne), (index_of_nil_r _ Hne).
  reflexivity.
Qed.

(** A section that begins a line is removed, wherever it stands. *)
Lemma sub_section_line (m : markers) (a g rest : text) :
  well_formed m = true ->
  contains (m_start m) a = false ->
  contains (m_end m) g = false ->
  sub m (a ++ [LF] ++ wrap m g ++ rest) = a ++ [LF] ++ sub m rest.
Proof.
  intros Hwf Ha Hg.
  destruct (well_formed_inv m Hwf) as (_ & _ & HS & HE & HnS & HnE).
  assert (Hsearch : search m (a ++ [LF] ++ wrap m g ++ rest)
                    = Some (length a + 1 + 0, length (wrap m g))).
  { rewrite wrap_length. unfold wrap. apply search_found.
    - change (a ++ [LF] ++ (m_start m ++ [LF] ++ g ++ [LF] ++ m_end m) ++ rest)
        with (a ++ LF :: ((m_start m ++ [LF] ++ g ++ [LF] ++ m_end m) ++ rest)).
      rewrite (index_of_sep LF _ _ _ HS HnS), (contains_false _ _ Ha).
      rewrite <- app_assoc, index_of_head. reflexivity.
    - replace (a ++ [LF] ++ (m_start m ++ [LF] ++ g ++ [LF] ++ m_end m) ++ rest)
        with (((a ++ [LF]) ++ m_start m) ++ LF :: (g ++ LF :: (m_end m ++ rest)))
        by (rewrite <- !app_assoc; reflexivity).
      replace (length a + 1 + 0 + length (m_start m))
        with (length ((a ++ [LF]) ++ m_start m))
        by (rewrite !length_app; simpl; lia).
      rewrite skipn_length_app.
      change (LF :: g ++ LF :: m_end m ++ rest)
        with ([] ++ LF :: (g ++ LF :: (m_end m ++ rest))).
      rewrite (index_of_sep LF _ _ _ HE HnE), (index_of_nil_r _ HnE).
      rewrite (index_of_sep LF _ _ _ HE HnE), (contains_false _ _ Hg).
      rewrite index_of_head. reflexivity. }
  rewrite (sub_search_some m _ _ _ Hsearch (wrap_nonempty m g)).
  replace (a ++ [LF] ++ wrap m g ++ rest)
    with (((a ++ [LF]) ++ wrap m g) ++ rest) at 2
    by (rewrite <- !app_assoc; reflexivity).
  replace (length a + 1 + 0 + length (wrap m g))
    with (length ((a ++ [LF]) ++ wrap m g))
    by (rewrite !length_app; simpl; lia).
  rewrite skipn_length_app.
  replace (length a + 1 + 0) with (length (a ++ [LF]))
    by (rewrite length_app; simpl; lia).
  replace (a ++ [LF] ++ wrap m g ++ rest)
    with ((a ++ [LF]) ++ wrap m g ++ rest)
    by (rewrite <- !app_assoc; reflexivity).
  rewrite firstn_length_app. now rewrite <- app_assoc.
Qed.

(** ** Occurrences in a stripped text *)








(** * The claims *)

(** The literal scenario of the specification, on the model. *)
Example literal_scenario :
  merge begin_end path_line alias_ll
  = lines [path_line; []; codes "## BEGIN"; alias_ll; codes "## END"]
  /\ merge begin_end (merge begin_end path_line alias_ll) alias_gs
     = lines [path_line; []; codes "## BEGIN"; alias_gs; codes "## END"].
Proof. split; vm_compute; reflexivity. Qed.

(** ** C1: merging twice *)

(** C1, as stated, fails.  The configuration file holds a line with the
    marker (one occurrence, so no section is found); the first merge
    appends a section, and the second merge takes the stray marker and
    the start marker of that section for a section, removes them and
    leaves the old body and end marker in the text.  The second output
    differs from the first. *)
Lemma merge_twice_differs :
  let d := lines [path_line; local_helpers] in
  merge init_markers d alias_ll
  = lines [path_line; local_helpers; [];
           local_helpers; alias_ll; local_helpers]
  /\ merge init_markers (merge init_markers d alias_ll) alias_ll
     = lines [path_line; []; alias_ll; local_helpers; [];
              local_helpers; alias_ll; local_helpers]
  /\ merge init_markers (merge init_markers d alias_ll) alias_ll
     <> merge init_markers d alias_ll.
Proof.
  repeat split; try (vm_compute; reflexivity).
  vm_compute. discriminate.
Qed.

(** C1, amended.  For markers that are non-empty, hold no line feed and
    have no white space at their outer ends (the installed pair is such),
    a document whose text after the removal of its sections holds no
    start marker, and a body that holds no end marker: merging a second
    time with the same body returns the first output. *)
Theorem merge_idempotent (m : markers) (d g : text) :
  well_formed m = true ->
  contains (m_start m) (new_content m (strip d)) = false ->
  contains (m_end m) g = false ->
  merge m (merge m d g) g = merge m d g.
Proof.
  intros Hwf Hr Hg. rewrite (merge_unfold m d g).
  unfold merge at 1.
  apply update_add_section; trivial.
  apply stripped_new_content, stripped_strip.
Qed.

Lemma merge_idempotent_witness :
  well_formed init_markers = true
  /\ contains (m_start init_markers) (new_content init_markers (strip path_line))
     = false
  /\ contains (m_end init_markers) alias_ll = false
  /\ merge init_markers (merge init_markers path_line alias_ll) alias_ll
     = merge init_markers path_line alias_ll.
Proof.
  split; [reflexivity|]. split; [reflexivity|]. split; [reflexivity|].
  apply (merge_idempotent init_markers path_line alias_ll); reflexivity.
Defined.

(** ** C2: what a merge keeps *)

(** C2, as stated, fails.  The document is a section followed by a tab
    and a line of text, with no white space at either end; the tab lies
    outside the section and is not in the output. *)
Lemma tab_after_section_dropped :
  let d := lines [local_helpers; alias_gs; local_helpers] ++ TAB :: path_line in
  strip d = d
  /\ find_existing_section init_markers d = Some (0, 55)
  /\ skipn 55 d = TAB :: path_line
  /\ existsb (N.eqb TAB) (merge init_markers d alias_ll) = false
  /\ merge init_markers d alias_ll
     = lines [path_line; []; local_helpers; alias_ll; local_helpers].
Proof. repeat split; vm_compute; reflexivity. Qed.

(** C2, amended.  The output is the stripped document with every matched
    span removed, stripped again, followed (when it is not empty) by the
    separator and then by the new section: outside the removed spans
    only leading and trailing white space is dropped.  The search
    always finds a section in the output.  For well-formed markers, when
    the kept text holds no start marker and the body no end marker, the
    pattern matches exactly once in the output, at the new section. *)
Theorem merge_result (m : markers) (d g : text) :
  merge m d g = add_section (strip (sub m (strip d))) (wrap m g)
  /\ find_existing_section m (merge m d g) <> None
  /\ (well_formed m = true ->
      contains (m_start m) (strip (sub m (strip d))) = false ->
      contains (m_end m) g = false ->
      count_sections m (merge m d g) = 1
      /\ find_existing_section m (merge m d g)
         = Some (length (lead (strip (sub m (strip d)))), length (wrap m g))).
Proof.
  assert (H : merge m d g = add_section (strip (sub m (strip d))) (wrap m g)).
  { rewrite merge_unfold. f_equal. apply new_content_sub, stripped_strip. }
  rewrite H. split; [reflexivity|]. split.
  - rewrite add_section_lead. unfold find_existing_section, wrap.
    replace (m_start m ++ [LF] ++ g ++ [LF] ++ m_end m)
      with (m_start m ++ ([LF] ++ g ++ [LF]) ++ m_end m)
      by (rewrite <- !app_assoc; reflexivity).
    apply search_wrapped.
  - intros Hwf Hr Hg. split.
    + now apply count_add_section.
    + now apply search_add_section.
Qed.

Lemma merge_result_witness :
  well_formed init_markers = true
  /\ contains (m_start init_markers)
       (strip (sub init_markers (strip (TAB :: path_line)))) = false
  /\ contains (m_end init_markers) alias_ll = false
  /\ count_sections init_markers
       (merge init_markers (TAB :: path_line) alias_ll) = 1.
Proof.
  split; [reflexivity|]. split; [reflexivity|]. split; [reflexivity|].
  apply (merge_result init_markers (TAB :: path_line) alias_ll); reflexivity.
Defined.

(** ** C3: several sections *)

(** C3, as stated, fails.  The document holds two sections with a line
    between them; the merge removes both, and the later one is not left
    in place. *)
Lemma later_section_removed :
  let later := lines [local_helpers; codes "alias b=2"; local_helpers] in
  let d := lines [local_helpers; codes "alias a=1"; local_helpers;
                  path_line; later] in
  contains later d = true
  /\ merge init_markers d alias_ll
     = lines [path_line; []; local_helpers; alias_ll; local_helpers]
  /\ contains later (merge init_markers d alias_ll) = false.
Proof. repeat split; vm_compute; reflexivity. Qed.

(** C3, amended.  The merge removes every matched span, not the first
    alone.  Its output is the stripped document with all that the
    removal deletes taken out, stripped, and the new section added; the
    removal deletes the first matched span and goes on in the text after
    it, and leaves text without a match as it is.  For well-formed
    markers and a document with two sections, each beginning a line,
    between texts without a start marker (bodies without an end marker,
    no match in the text after the second section), the merge removes
    both sections and keeps the three texts around them. *)
Theorem remove_every_section (m : markers) :
  (forall c i n,
      find_existing_section m c = Some (i, n) ->
      sub m c = firstn i c ++ sub m (skipn (i + n) c))
  /\ (forall c, find_existing_section m c = None -> sub m c = c)
  /\ (forall a g rest,
         well_formed m = true ->
         contains (m_start m) a = false ->
         contains (m_end m) g = false ->
         sub m (a ++ [LF] ++ wrap m g ++ rest) = a ++ [LF] ++ sub m rest)
  /\ (forall d g,
         merge m d g = add_section (strip (sub m (strip d))) (wrap m g))
  /\ (forall a b c g1 g2 g,
         well_formed m = true ->
         nonspace_head a = true ->
         nonspace_head (rev c) = true ->
         contains (m_start m) a = false ->
         contains (m_start m) b = false ->
         contains (m_end m) g1 = false ->
         contains (m_end m) g2 = false ->
         find_existing_section m c = None ->
         merge m (a ++ [LF] ++ wrap m g1 ++ b ++ [LF] ++ wrap m g2 ++ c) g
         = (a ++ [LF] ++ b ++ [LF] ++ c) ++ [LF; LF] ++ wrap m g).
Proof.
  assert (Hmerge : forall d g,
             merge m d g = add_section (strip (sub m (strip d))) (wrap m g)).
  { intros d g. rewrite merge_unfold. f_equal.
    apply new_content_sub, stripped_strip. }
  split; [|split; [|split; [|split]]].
  - intros c i n H. unfold find_existing_section in H.
    destruct n as [|n]; [|apply (sub_search_some m c i (S n) H); lia].
    destruct (search_inv m c i 0 H) as (k & Hn & _).
    destruct m as [[|x s] [|y e]]; simpl in Hn; try lia.
    rewrite (search_match_here _ c 0 (match_here_empty c)) in H.
    injection H as <-. reflexivity.
  - intros c H. now apply sub_search_none.
  - intros a g rest. apply sub_section_line.
  - exact Hmerge.
  - intros a b c g1 g2 g Hwf Ha Hc Hsa Hsb Hg1 Hg2 Hnone.
    rewrite Hmerge.
    assert (Hd : stripped (a ++ [LF] ++ wrap m g1 ++ b ++ [LF] ++ wrap m g2 ++ c)).
    { replace (a ++ [LF] ++ wrap m g1 ++ b ++ [LF] ++ wrap m g2 ++ c)
        with (a ++ ([LF] ++ wrap m g1 ++ b ++ [LF] ++ wrap m g2) ++ c)
        by (rewrite <- !app_assoc; reflexivity).
      now apply stripped_ends. }
    rewrite (strip_stripped _ Hd).
    rewrite (sub_section_line m a g1 _ Hwf Hsa Hg1).
    rewrite (sub_section_line m b g2 c Hwf Hsb Hg2).
    rewrite (sub_search_none m c Hnone).
    assert (Hr : stripped (a ++ [LF] ++ b ++ [LF] ++ c)).
    { replace (a ++ [LF] ++ b ++ [LF] ++ c)
        with (a ++ ([LF] ++ b ++ [LF]) ++ c)
        by (rewrite <- !app_assoc; reflexivity).
      now apply stripped_ends. }
    rewrite (strip_stripped _ Hr).
    destruct a as [|x a]; [discriminate|]. reflexivity.
Qed.

Lemma remove_every_section_witness :
  let a := codes "# top" in
  let b := LF :: path_line in
  let c := LF :: codes "# end" in
  let g1 := codes "alias a=1" in
  let g2 := codes "alias b=2" in
  well_formed init_markers = true
  /\ find_existing_section init_markers c = None
  /\ merge init_markers
       (a ++ [LF] ++ wrap init_markers g1 ++ b ++ [LF]
          ++ wrap init_markers g2 ++ c) alias_ll
     = (a ++ [LF] ++ b ++ [LF] ++ c) ++ [LF; LF] ++ wrap init_markers alias_ll.
Proof.
  split; [reflexivity|]. split; [reflexivity|].
  apply (proj2 (proj2 (proj2 (proj2 (remove_every_section init_markers))))
           (codes "# top") (LF :: path_line) (LF :: codes "# end")
           (codes "alias a=1") (codes "alias b=2") alias_ll);
    reflexivity.
Defined.

(** ** C4: a start marker without an end marker *)

(** C4, as stated, fails.  The document holds a start marker and no end
    marker after it, and begins with two spaces; the merge deletes the
    two spaces, so the output does not begin with the document. *)
Lemma unmatched_start_loses_space :
  let d := codes "  ## BEGIN unfinished" in
  index_of (m_start begin_end) d = Some 2
  /\ index_of (m_end begin_end) (skipn (2 + length (m_start begin_end)) d)
     = None
  /\ merge begin_end d alias_ll
     = lines [codes "## BEGIN unfinished"; [];
              codes "## BEGIN"; alias_ll; codes "## END"]
  /\ startswith d (merge begin_end d alias_ll) = false.
Proof. repeat split; vm_compute; reflexivity. Qed.

(** C4, amended.  When the first start marker of the document has no end
    marker after it, no section is found, the removal is not run, and
    the output is the stripped document (nothing but its leading and
    trailing white space is deleted) followed by the separator and the
    new section. *)
Theorem unmatched_start_kept (m : markers) (d g : text) (i : nat) :
  index_of (m_start m) d = Some i ->
  index_of (m_end m) (skipn (i + length (m_start m)) d) = None ->
  find_existing_section m (strip d) = None
  /\ new_content m (strip d) = strip d
  /\ merge m d g = add_section (strip d) (wrap m g).
Proof.
  intros Hi Hk.
  assert (H : search m (strip d) = None)
    by (apply search_strip, (search_unmatched m d i Hi Hk)).
  split; [exact H|]. split.
  - unfold new_content, find_existing_section. now rewrite H.
  - now apply merge_no_section.
Qed.

Lemma unmatched_start_kept_witness :
  let d := codes "  ## BEGIN unfinished" in
  index_of (m_start begin_end) d = Some 2
  /\ index_of (m_end begin_end) (skipn (2 + length (m_start begin_end)) d)
     = None
  /\ merge begin_end d alias_ll = add_section (strip d) (wrap begin_end alias_ll).
Proof.
  split; [reflexivity|]. split; [reflexivity|].
  apply (unmatched_start_kept begin_end (codes "  ## BEGIN unfinished")
           alias_ll 2); reflexivity.
Defined.

(** ** C5: partial markers *)

(** C5, as stated, fails.  The document is one marker line; the output
    holds the marker three times, and once the one complete span is
    taken away a marker is left over. *)
Lemma stray_marker_left :
  merge init_markers local_helpers alias_ll
  = lines [local_helpers; []; local_helpers; alias_ll; local_helpers]
  /\ occurrences local_helpers (merge init_markers local_helpers alias_ll) = 3
  /\ spec_no_partial_marker init_markers
       (merge init_markers local_helpers alias_ll) = false.
Proof. repeat split; vm_compute; reflexivity. Qed.

(** C5, amended.  For well-formed markers, a document whose text after
    the removal of its sections holds neither marker, and a body that
    holds no end marker: the output holds no marker outside its one
    section. *)
Theorem merge_no_partial_marker (m : markers) (d g : text) :
  well_formed m = true ->
  contains (m_start m) (new_content m (strip d)) = false ->
  contains (m_end m) (new_content m (strip d)) = false ->
  contains (m_end m) g = false ->
  spec_no_partial_marker m (merge m d g) = true.
Proof.
  intros Hwf Hs He Hg.
  destruct (well_formed_inv m Hwf) as (_ & _ & HS & HE & HnS & HnE).
  unfold spec_no_partial_marker.
  rewrite merge_unfold, (sub_add_section m _ g Hwf Hs Hg).
  now rewrite (contains_lead _ _ HS HnS Hs), (contains_lead _ _ HE HnE He).
Qed.

Lemma merge_no_partial_marker_witness :
  well_formed init_markers = true
  /\ contains (m_start init_markers) (new_content init_markers (strip path_line))
     = false
  /\ contains (m_end init_markers) (new_content init_markers (strip path_line))
     = false
  /\ contains (m_end init_markers) alias_ll = false
  /\ spec_no_partial_marker init_markers
       (merge init_markers path_line alias_ll) = true.
Proof.
  split; [reflexivity|]. split; [reflexivity|]. split; [reflexivity|].
  split; [reflexivity|].
  apply (merge_no_partial_marker init_markers path_line alias_ll); reflexivity.
Defined.

(** ** C6: replacement *)

(** C6, as stated, fails.  With the installed markers and a document
    that holds one stray marker line, the bodies of the specification's
    own scenario (neither holds a marker): after the second merge the
    first body is still in the text, and the marker occurs three times. *)
Lemma first_body_survives :
  let d0 := lines [path_line; local_helpers] in
  let d2 := merge init_markers (merge init_markers d0 alias_ll) alias_gs in
  contains local_helpers alias_ll = false
  /\ contains local_helpers alias_gs = false
  /\ d2 = lines [path_line; []; alias_ll; local_helpers; [];
                 local_helpers; alias_gs; local_helpers]
  /\ contains alias_ll d2 = true
  /\ occurrences local_helpers d2 = 3.
Proof. repeat split; vm_compute; reflexivity. Qed.

(** C6, amended.  For well-formed markers, a document whose text after
    the removal of its sections holds no start marker, and bodies that
    hold no end marker: the second merge gives the text the document
    keeps, followed by the section with the second body; that is the
    merge of the document with the second body alone, so nothing of the
    first section is left; the pattern matches once in it, at the
    section just written. *)
Theorem merge_replaces_section (m : markers) (d0 g1 g2 : text) :
  well_formed m = true ->
  contains (m_start m) (new_content m (strip d0)) = false ->
  contains (m_end m) g1 = false ->
  contains (m_end m) g2 = false ->
  merge m (merge m d0 g1) g2
  = add_section (new_content m (strip d0)) (wrap m g2)
  /\ merge m (merge m d0 g1) g2 = merge m d0 g2
  /\ count_sections m (merge m (merge m d0 g1) g2) = 1
  /\ find_existing_section m (merge m (merge m d0 g1) g2)
     = Some (length (lead (new_content m (strip d0))), length (wrap m g2)).
Proof.
  intros Hwf Hr Hg1 Hg2.
  assert (H : merge m (merge m d0 g1) g2
              = add_section (new_content m (strip d0)) (wrap m g2)).
  { rewrite (merge_unfold m d0 g1). unfold merge at 1.
    apply update_add_section; trivial.
    apply stripped_new_content, stripped_strip. }
  rewrite H. repeat split.
  - now apply count_add_section.
  - now apply search_add_section.
Qed.

Lemma merge_replaces_section_witness :
  well_formed begin_end = true
  /\ contains (m_start begin_end) (new_content begin_end (strip path_line))
     = false
  /\ contains (m_end begin_end) alias_ll = false
  /\ contains (m_end begin_end) alias_gs = false
  /\ merge begin_end (merge begin_end path_line alias_ll) alias_gs
     = merge begin_end path_line alias_gs.
Proof.
  split; [reflexivity|]. split; [reflexivity|]. split; [reflexivity|].
  split; [reflexivity|].
  apply (merge_replaces_section begin_end path_line alias_ll alias_gs);
    reflexivity.
Defined.

(** ** C7: a document without a section *)

(** C7, as stated, fails.  The empty document has no section, and its
    merge is the section alone: no separator comes before it. *)
Lemma empty_document_no_separator :
  find_existing_section begin_end [] = None
  /\ merge begin_end [] alias_ll = wrap begin_end alias_ll
  /\ merge begin_end [] alias_ll
     <> strip [] ++ [LF; LF] ++ wrap begin_end alias_ll.
Proof.
  split; [reflexivity|]. split; [reflexivity|].
  vm_compute. discriminate.
Qed.

(** C7, amended.  For a document without a section: when its stripped
    content is not empty, the output is that content, the separator and
    the new section; when it is empty, the output is the new section
    alone.  Either way the stripped content is a prefix of the output. *)
Theorem merge_without_section (m : markers) (d g : text) :
  find_existing_section m d = None ->
  (strip d <> [] -> merge m d g = strip d ++ [LF; LF] ++ wrap m g)
  /\ (strip d = [] -> merge m d g = wrap m g)
  /\ startswith (strip d) (merge m d g) = true.
Proof.
  intros H. apply search_strip in H.
  rewrite (merge_no_section m d g H).
  split; [|split].
  - intros Hne. destruct (strip d); [congruence | reflexivity].
  - intros ->. reflexivity.
  - rewrite add_section_lead. destruct (strip d) as [|x r]; [reflexivity|].
    unfold lead. rewrite <- app_assoc. apply startswith_app.
Qed.

Lemma merge_without_section_witness :
  find_existing_section begin_end (TAB :: path_line) = None
  /\ startswith (strip (TAB :: path_line))
       (merge begin_end (TAB :: path_line) alias_ll) = true.
Proof.
  split; [reflexivity|].
  apply (merge_without_section begin_end (TAB :: path_line) alias_ll).
  reflexivity.
Defined.

(** ** C8: empty markers *)

(** C8, as stated, fails.  With an empty start marker the merge raises
    nothing: the pattern matches from the beginning of the text to the
    first end marker, that span is removed, and a document is returned,
    where the specification's merge gives its error. *)
Lemma empty_marker_accepted :
  let m := Markers [] (codes "## END") in
  let d := codes "keep ## END tail" in
  spec_checked_merge m d alias_ll = None
  /\ merge m d alias_ll
     = lines [codes "tail"; []; []; alias_ll; codes "## END"]
  /\ Some (merge m d alias_ll) <> spec_checked_merge m d alias_ll.
Proof.
  split; [reflexivity|]. split; [reflexivity|]. discriminate.
Qed.

(** C8, amended.  The constructor checks nothing: it installs one fixed,
    non-empty literal as both markers.  The merge checks nothing either;
    with an empty marker it returns a document, which the pattern
    decides (Python 3.7 and later).  With both markers empty the whole
    document is deleted and the output is the body between two line
    feeds.  With an empty start marker everything up to and including
    the first end marker is deleted and the removal goes on behind it;
    without an end marker nothing is deleted.  With an empty end marker
    every occurrence of the start marker is deleted, one after the
    other.  In each case the wrapped body is added to what is left,
    stripped. *)
Theorem markers_not_checked :
  (m_start init_markers <> [] /\ m_end init_markers <> [])
  /\ (forall d g, merge (Markers [] []) d g = [LF] ++ g ++ [LF])
  /\ (forall e d g k,
         e <> [] -> index_of e (strip d) = Some k ->
         merge (Markers [] e) d g
         = add_section
             (strip (sub (Markers [] e) (skipn (k + length e) (strip d))))
             (wrap (Markers [] e) g))
  /\ (forall e d g,
         e <> [] -> index_of e (strip d) = None ->
         merge (Markers [] e) d g
         = add_section (strip d) (wrap (Markers [] e) g))
  /\ (forall s d g i,
         s <> [] -> index_of s (strip d) = Some i ->
         merge (Markers s []) d g
         = add_section
             (strip (firstn i (strip d)
                     ++ sub (Markers s []) (skipn (i + length s) (strip d))))
             (wrap (Markers s []) g)).
Proof.
  assert (Hlen : forall t : text, t <> [] -> 0 < length t)
    by (intros [|x t] H; [congruence | simpl; lia]).
  split; [split; discriminate|]. split; [|split; [|split]].
  - intros d g. rewrite merge_unfold.
    rewrite (new_content_sub _ _ (stripped_strip d)), sub_empty_markers.
    reflexivity.
  - intros e d g k He Hk. rewrite merge_unfold.
    assert (Hs : search (Markers [] e) (strip d) = Some (0, k + length e)).
    { apply (search_found (Markers [] e) (strip d) 0 k); [|exact Hk].
      now apply index_of_here. }
    unfold new_content, find_existing_section, remove_existing_section.
    rewrite Hs.
    rewrite (sub_search_some _ _ _ _ Hs) by (specialize (Hlen e He); lia).
    reflexivity.
  - intros e d g He Hk. apply merge_no_section.
    apply search_no_end. exact Hk.
  - intros s d g i Hne Hi. rewrite merge_unfold.
    assert (Hs : search (Markers s []) (strip d) = Some (i, length s)).
    { pose proof (search_found (Markers s []) (strip d) i 0 Hi
                    (index_of_here [] _ eq_refl)) as Hs.
      cbn [m_start m_end length] in Hs.
      now rewrite !Nat.add_0_r in Hs. }
    unfold new_content, find_existing_section, remove_existing_section.
    rewrite Hs.
    rewrite (sub_search_some _ _ _ _ Hs) by (specialize (Hlen s Hne); lia).
    reflexivity.
Qed.

Lemma markers_not_checked_witness :
  let e := codes "## END" in
  let d := codes "keep ## END tail" in
  index_of e (strip d) = Some 5
  /\ merge (Markers [] e) d alias_ll
     = add_section (strip (sub (Markers [] e) (skipn (5 + length e) (strip d))))
         (wrap (Markers [] e) alias_ll)
  /\ merge (Markers [] e) d alias_ll
     = lines [codes "tail"; []; []; alias_ll; codes "## END"].
Proof.
  split; [reflexivity|]. split; [|reflexivity].
  apply (proj1 (proj2 (proj2 markers_not_checked))
           (codes "## END") (codes "keep ## END tail") alias_ll 5);
    [discriminate | reflexivity].
Defined.

(** ** C9: the empty document *)

(** C9.  The merge of the empty document is the start marker, a line
    feed, the body, a line feed and the end marker, nothing before the
    start marker: on the empty text the update returns the section text
    it is given, with no separator; the section text the code generates
    is the start marker, the two comment lines, an empty line, one line
    for each alias, an empty line and the end marker, joined by line
    feeds; and that text alone is what [update_shell_config] writes for
    a configuration file that is missing or empty. *)
Theorem merge_empty_document (m : markers) (g : text) :
  merge m [] g = m_start m ++ [LF] ++ g ++ [LF] ++ m_end m
  /\ (forall alias_content, update_text m alias_content [] = alias_content)
  /\ (forall f aliases,
         generate_alias_content f m aliases
         = m_start m ++ [LF]
           ++ join [LF]
                ([codes "# Aliases for local helper scripts";
                  codes "# Generated automatically by setup.py"; []]
                 ++ map (alias_line f) aliases ++ [[]])
           ++ [LF] ++ m_end m)
  /\ (forall f aliases bak,
         config (update_shell_config f m aliases (Files None bak))
         = Some (m_start m ++ [LF]
                 ++ join [LF]
                      ([codes "# Aliases for local helper scripts";
                        codes "# Generated automatically by setup.py"; []]
                       ++ map (alias_line f) aliases ++ [[]])
                 ++ [LF] ++ m_end m)
         /\ config (update_shell_config f m aliases (Files (Some []) bak))
            = Some (m_start m ++ [LF]
                    ++ join [LF]
                         ([codes "# Aliases for local helper scripts";
                           codes "# Generated automatically by setup.py"; []]
                          ++ map (alias_line f) aliases ++ [[]])
                    ++ [LF] ++ m_end m)).
Proof.
  assert (H : forall b, update_text m b [] = b).
  { intros b. unfold update_text, new_content, find_existing_section,
      remove_existing_section.
    change (strip []) with (@nil char).
    destruct (search m []); reflexivity. }
  assert (Hg : forall f aliases,
             generate_alias_content f m aliases
             = m_start m ++ [LF]
               ++ join [LF]
                    ([codes "# Aliases for local helper scripts";
                      codes "# Generated automatically by setup.py"; []]
                     ++ map (alias_line f) aliases ++ [[]])
               ++ [LF] ++ m_end m).
  { intros f aliases. now rewrite generate_alias_content_wrap. }
  split; [|split; [|split]].
  - unfold merge. rewrite H. reflexivity.
  - exact H.
  - exact Hg.
  - intros f aliases bak. rewrite !update_shell_config_merge.
    unfold merge, read_text. simpl config.
    rewrite H, <- generate_alias_content_wrap, Hg. split; reflexivity.
Qed.

(** ** C10: the installed markers *)



(** * Further properties *)

(** ** Texts and dicts *)

Lemma text_eqb_eq (a b : text) : text_eqb a b = true <-> a = b.
Proof.
  revert b. induction a as [|x a IH]; intros [|y b]; simpl; split;
    try discriminate; try reflexivity.
  - intros H. apply andb_true_iff in H. destruct H as [H1 H2].
    apply N.eqb_eq in H1. apply IH in H2. now subst.
  - intros [= -> ->]. rewrite N.eqb_refl. now apply IH.
Qed.

Lemma text_eqb_refl (a : text) : text_eqb a a = true.
Proof. now apply text_eqb_eq. Qed.

Lemma text_eqb_neq (a b : text) : a <> b -> text_eqb a b = false.
Proof.
  intros H. destruct (text_eqb a b) eqn:E; [|reflexivity].
  apply text_eqb_eq in E. contradiction.
Qed.

Lemma dict_set_keys (d : dict) (k v : text) :
  forall x, In x (map fst (dict_set d k v)) <-> In x (map fst d) \/ x = k.
Proof.
  induction d as [|[k' v'] d IH]; intros x; simpl.
  - intuition congruence.
  - destruct (text_eqb k' k) eqn:E; simpl.
    + apply text_eqb_eq in E. subst. intuition congruence.
    + rewrite IH. tauto.
Qed.

Lemma dict_set_nodup (d : dict) (k v : text) :
  NoDup (map fst d) -> NoDup (map fst (dict_set d k v)).
Proof.
  induction d as [|[k' v'] d IH]; simpl; intros H.
  - constructor; [intros [] | constructor].
  - inversion H as [|? ? Hn Hd]; subst.
    destruct (text_eqb k' k) eqn:E; simpl.
    + now constructor.
    + constructor; [|now apply IH].
      rewrite dict_set_keys. intros [Hin | ->]; [contradiction|].
      rewrite text_eqb_refl in E. discriminate.
Qed.

Lemma dict_set_in (d : dict) (k v : text) (x : text * text) :
  In x (dict_set d k v) -> In x d \/ x = (k, v).
Proof.
  induction d as [|[k' v'] d IH]; simpl.
  - intuition congruence.
  - destruct (text_eqb k' k) eqn:E; simpl.
    + apply text_eqb_eq in E. subst. intuition congruence.
    + intros [H | H]; [tauto|]. apply IH in H. tauto.
Qed.

Lemma dict_get_set_same (d : dict) (k v : text) :
  dict_get (dict_set d k v) k = Some v.
Proof.
  induction d as [|[k' v'] d IH]; simpl.
  - now rewrite text_eqb_refl.
  - destruct (text_eqb k' k) eqn:E; simpl; now rewrite E.
Qed.

Lemma dict_get_set_other (d : dict) (k v k0 : text) :
  k0 <> k -> dict_get (dict_set d k v) k0 = dict_get d k0.
Proof.
  intros Hne. induction d as [|[k' v'] d IH]; simpl.
  - rewrite text_eqb_neq; [reflexivity | congruence].
  - destruct (text_eqb k' k) eqn:E; simpl.
    + apply text_eqb_eq in E. subst k'.
      rewrite text_eqb_neq; [|congruence]. reflexivity.
    + now rewrite IH.
Qed.

(** ** Loading the aliases *)

Lemma split1_length (sep s : text) :
  contains sep s = true -> length (split1 sep s) = 2.
Proof.
  unfold contains, split1.
  destruct (index_of sep s); [reflexivity | discriminate].
Qed.

Lemma parse_line_invalid (raw : text) :
  parse_line raw = Invalid <-> is_invalid raw = true.
Proof.
  unfold parse_line, is_invalid. cbv zeta.
  destruct (strip raw) as [|c l]; [split; discriminate|].
  destruct (startswith hash (c :: l)); [split; discriminate|].
  destruct (contains fun_def (c :: l)); [split; discriminate|].
  destruct (contains eq_sign (c :: l)) eqn:E.
  - rewrite (split1_length _ _ E). split; discriminate.
  - split; reflexivity.
Qed.

Lemma load_line_warnings (st : dict * list nat) (k : nat) (raw : text) :
  snd (load_line st k raw) = snd st ++ (if is_invalid raw then [k] else []).
Proof.
  unfold load_line. destruct (parse_line raw) eqn:E.
  - destruct (is_invalid raw) eqn:I; [|now rewrite app_nil_r].
    apply parse_line_invalid in I. congruence.
  - destruct (is_invalid raw) eqn:I; [|simpl; now rewrite app_nil_r].
    apply parse_line_invalid in I. congruence.
  - apply parse_line_invalid in E. now rewrite E.
Qed.

Lemma load_lines_warnings (st : dict * list nat) (k : nat) (ls : list text) :
  snd (load_lines st k ls)
  = snd st
    ++ map fst (filter (fun p => is_invalid (snd p))
                  (combine (seq k (length ls)) ls)).
Proof.
  revert st k. induction ls as [|raw ls IH]; intros st k; simpl.
  - now rewrite app_nil_r.
  - rewrite IH, load_line_warnings, <- app_assoc. f_equal.
    destruct (is_invalid raw); reflexivity.
Qed.

Lemma load_line_nodup (st : dict * list nat) (k : nat) (raw : text) :
  NoDup (map fst (fst st)) -> NoDup (map fst (fst (load_line st k raw))).
Proof.
  unfold load_line. destruct (parse_line raw); simpl; trivial.
  apply dict_set_nodup.
Qed.

Lemma load_lines_nodup (st : dict * list nat) (k : nat) (ls : list text) :
  NoDup (map fst (fst st)) -> NoDup (map fst (fst (load_lines st k ls))).
Proof.
  revert st k. induction ls as [|raw ls IH]; intros st k H; simpl; trivial.
  apply IH, load_line_nodup, H.
Qed.

Lemma load_lines_entries (st : dict * list nat) (k : nat) (ls : list text)
    (x : text * text) :
  In x (fst (load_lines st k ls)) ->
  In x (fst st)
  \/ exists raw, In raw ls /\ parse_line raw = Entry (fst x) (snd x).
Proof.
  revert st k. induction ls as [|raw ls IH]; intros st k H; simpl in H.
  - now left.
  - apply IH in H. destruct H as [H | (r & Hr & Hp)].
    + unfold load_line in H. destruct (parse_line raw) eqn:E; simpl in H.
      * now left.
      * apply dict_set_in in H. destruct H as [H | ->]; [now left|].
        right. exists raw. simpl. auto.
      * now left.
    + right. exists r. simpl. auto.
Qed.

Lemma load_lines_app (st : dict * list nat) (k : nat) (a b : list text) :
  load_lines st k (a ++ b) = load_lines (load_lines st k a) (k + length a) b.
Proof.
  revert st k. induction a as [|raw a IH]; intros st k; simpl.
  - now rewrite Nat.add_0_r.
  - rewrite IH. f_equal. lia.
Qed.

Lemma load_lines_get_other (st : dict * list nat) (k : nat) (ls : list text)
    (n : text) :
  (forall raw c, In raw ls -> parse_line raw <> Entry n c) ->
  dict_get (fst (load_lines st k ls)) n = dict_get (fst st) n.
Proof.
  revert st k. induction ls as [|raw ls IH]; intros st k H; simpl; trivial.
  rewrite IH by (intros r c Hr; apply H; now right).
  unfold load_line. destruct (parse_line raw) as [|n' c'|] eqn:E; trivial.
  simpl. apply dict_get_set_other. intros ->.
  apply (H raw c'); [now left | exact E].
Qed.

(** X1.  The warnings of [load_aliases_from_file] are the numbers,
    counted from 1 and in increasing order, of the lines that are not
    blank, are no comment and hold neither [(){] nor [=]: the second
    warning of the loop (a split into other than two parts) is never
    given. *)
Theorem load_warnings (t : text) :
  snd (load_aliases_from_file (Some t))
  = map fst (filter (fun p => is_invalid (snd p))
               (combine (seq 1 (length (readlines t))) (readlines t))).
Proof. unfold load_aliases_from_file. now rewrite load_lines_warnings. Qed.

(** X2.  No alias name occurs twice in the loaded aliases, and every
    loaded alias was assigned by some line of the file. *)
Theorem load_names_unique (alias_file : option text) :
  NoDup (map fst (fst (load_aliases_from_file alias_file)))
  /\ (forall n c,
         In (n, c) (fst (load_aliases_from_file alias_file)) ->
         exists t raw,
           alias_file = Some t /\ In raw (readlines t)
           /\ parse_line raw = Entry n c).
Proof.
  destruct alias_file as [t|]; simpl; split.
  - apply load_lines_nodup. constructor.
  - intros n c H. apply load_lines_entries in H.
    destruct H as [[] | (raw & Hr & Hp)]. eauto.
  - constructor.
  - intros n c [].
Qed.

Lemma load_names_unique_witness :
  let t := lines [codes "ll='ls -la'"; codes "ll=ls"] in
  In (codes "ll", codes "ls") (fst (load_aliases_from_file (Some t)))
  /\ exists t' raw,
       Some t = Some t' /\ In raw (readlines t')
       /\ parse_line raw = Entry (codes "ll") (codes "ls").
Proof.
  split; [left; reflexivity|].
  apply (proj2 (load_names_unique
                  (Some (lines [codes "ll='ls -la'"; codes "ll=ls"])))).
  left. reflexivity.
Defined.

(** X3.  When several lines assign to one name, the last one decides:
    after a line that assigns [c] to [n], followed only by lines that do
    not assign to [n], the loaded command of [n] is [c]. *)
Theorem load_last_assignment (t : text) (ls ls' : list text) (raw n c : text) :
  readlines t = ls ++ raw :: ls' ->
  parse_line raw = Entry n c ->
  (forall r c', In r ls' -> parse_line r <> Entry n c') ->
  dict_get (fst (load_aliases_from_file (Some t))) n = Some c.
Proof.
  intros Ht Hp Hl. unfold load_aliases_from_file.
  rewrite Ht, load_lines_app. simpl load_lines.
  rewrite (load_lines_get_other _ _ _ _ Hl).
  unfold load_line. rewrite Hp. simpl. apply dict_get_set_same.
Qed.

Lemma load_last_assignment_witness :
  let t := lines [codes "ll='ls -la'"; codes "ll=ls"; codes "gs=git"] in
  readlines t
  = [codes "ll='ls -la'" ++ [LF]] ++ (codes "ll=ls" ++ [LF]) :: [codes "gs=git"]
  /\ dict_get (fst (load_aliases_from_file (Some t))) (codes "ll")
     = Some (codes "ls").
Proof.
  split; [reflexivity|].
  apply (load_last_assignment
           (lines [codes "ll='ls -la'"; codes "ll=ls"; codes "gs=git"])
           [codes "ll='ls -la'" ++ [LF]] [codes "gs=git"]
           (codes "ll=ls" ++ [LF]) (codes "ll") (codes "ls"));
    [reflexivity | reflexivity |].
  intros r c' [<- | []]. vm_compute. discriminate.
Defined.

(** ** Function definitions and quoted commands *)

Lemma contains_skipn (p s : text) (k : nat) :
  contains p s = false -> contains p (skipn k s) = false.
Proof.
  unfold contains. intros H.
  destruct (index_of p s) eqn:E; [discriminate|].
  now rewrite (index_of_none_skipn p s k E).
Qed.

Lemma contains_app_l (p a b : text) :
  contains p (a ++ b) = false -> contains p a = false.
Proof.
  unfold contains. intros H.
  destruct (index_of p a) as [k|] eqn:E; [|reflexivity].
  destruct (index_of_app_r p a b k E) as [k' Hk']. now rewrite Hk' in H.
Qed.

Lemma contains_app_r (p a b : text) :
  contains p (a ++ b) = false -> contains p b = false.
Proof.
  intros H. apply (contains_skipn p _ (length a)) in H.
  now rewrite skipn_length_app in H.
Qed.

Lemma contains_strip (p s : text) :
  contains p s = false -> contains p (strip s) = false.
Proof.
  intros H. unfold strip.
  destruct (lstrip_suffix s) as [w Hw]. rewrite Hw in H.
  apply contains_app_r in H.
  destruct (rstrip_prefix (lstrip s)) as [t Ht]. rewrite Ht in H.
  now apply contains_app_l in H.
Qed.

Lemma contains_unquote (p s : text) :
  contains p s = false -> contains p (unquote s) = false.
Proof.
  intros H. unfold unquote.
  destruct (_ || _); [|exact H].
  apply (contains_skipn p s 1) in H.
  change (skipn 1 s) with (tl s) in H.
  destruct (tl s) as [|x l] eqn:E; [exact H|].
  rewrite (app_removelast_last 0%N (l := x :: l)) in H by discriminate.
  now apply contains_app_l in H.
Qed.

Lemma parse_line_function (raw n c : text) :
  parse_line raw = Entry n c ->
  contains fun_def c = true ->
  c = strip raw /\ n = strip (nth 0 (split1 fun_def c) []).
Proof.
  unfold parse_line. cbv zeta.
  destruct (strip raw) as [|x l] eqn:Hl; [discriminate|].
  destruct (startswith hash (x :: l)); [discriminate|].
  destruct (contains fun_def (x :: l)) eqn:Hf.
  - intros [= <- <-] _. split; reflexivity.
  - destruct (contains eq_sign (x :: l)) eqn:He; [|discriminate].
    rewrite (split1_length _ _ He). simpl Nat.eqb. cbv iota.
    intros [= _ <-] Hc. exfalso.
    assert (H : contains fun_def
                  (unquote (strip (nth 1 (split1 eq_sign (x :: l)) [])))
                = false).
    { apply contains_unquote, contains_strip. unfold split1.
      destruct (index_of eq_sign (x :: l)) as [i|]; simpl nth.
      - now apply contains_skipn.
      - reflexivity. }
    congruence.
Qed.

(** X4.  A loaded alias whose command holds [(){] came from a
    function-definition line of the file: its command is that whole
    line, stripped, its name is the stripped text before the first
    [(){], and [generate_alias_content] writes the command as it is.  A
    command taken from a [name=command] line (a line without [(){])
    never holds [(){]. *)
Theorem function_definition_verbatim (f : text -> text)
    (alias_file : option text) (n c : text) :
  In (n, c) (fst (load_aliases_from_file alias_file)) ->
  contains fun_def c = true ->
  (exists t raw,
      alias_file = Some t /\ In raw (readlines t) /\ c = strip raw)
  /\ n = strip (nth 0 (split1 fun_def c) [])
  /\ alias_line f (n, c) = c
  /\ (forall raw' n' c',
         parse_line raw' = Entry n' c' ->
         contains fun_def (strip raw') = false ->
         contains fun_def c' = false).
Proof.
  intros Hin Hc.
  destruct alias_file as [t|]; [|destruct Hin].
  apply load_lines_entries in Hin. destruct Hin as [[] | (raw & Hraw & Hp)].
  destruct (parse_line_function raw n c Hp Hc) as [Hcr Hn].
  split; [exists t, raw; auto|]. split; [exact Hn|]. split.
  - unfold alias_line. now rewrite Hc.
  - intros raw' n' c' Hp' Hf'.
    destruct (contains fun_def c') eqn:Hc'; [|reflexivity].
    destruct (parse_line_function raw' n' c' Hp' Hc') as [-> _]. congruence.
Qed.

Lemma function_definition_verbatim_witness :
  let t := lines [codes "# helpers"; codes "  up(){ cd ..; }  "] in
  In (codes "up", codes "up(){ cd ..; }") (fst (load_aliases_from_file (Some t)))
  /\ (exists t' raw,
         Some t = Some t' /\ In raw (readlines t')
         /\ codes "up(){ cd ..; }" = strip raw)
  /\ alias_line (fun s => s) (codes "up", codes "up(){ cd ..; }")
     = codes "up(){ cd ..; }".
Proof.
  split; [left; reflexivity|].
  pose proof (function_definition_verbatim (fun s => s)
                (Some (lines [codes "# helpers"; codes "  up(){ cd ..; }  "]))
                (codes "up") (codes "up(){ cd ..; }")
                (or_introl eq_refl) eq_refl) as (H1 & _ & H3 & _).
  split; [exact H1 | exact H3].
Defined.





(** ** Script paths *)

(** X6.  The path [get_script_absolute_path] returns holds no backslash
    and is as long as the path it was made from; a path without a
    backslash is returned as it is. *)
Theorem script_path_no_backslash (f : text -> text) (script_name : text) :
  existsb (N.eqb 92) (get_script_absolute_path f script_name) = false
  /\ length (get_script_absolute_path f script_name) = length (f script_name)
  /\ (existsb (N.eqb 92) (f script_name) = false ->
      get_script_absolute_path f script_name = f script_name).
Proof.
  unfold get_script_absolute_path, replace_backslash.
  generalize (f script_name) as s. intros s. split; [|split].
  - induction s as [|c s IH]; [reflexivity|]. cbn [map existsb].
    rewrite IH, orb_false_r.
    destruct (N.eqb_spec c 92) as [->|Hc]; [reflexivity|].
    apply N.eqb_neq. congruence.
  - apply length_map.
  - induction s as [|c s IH]; [reflexivity|]. cbn [map existsb]. intros H.
    apply orb_false_iff in H. destruct H as [Hc Hs].
    rewrite N.eqb_sym, Hc. f_equal. now apply IH.
Qed.

Lemma script_path_no_backslash_witness :
  existsb (N.eqb 92) (codes "/opt/helpers/run.sh") = false
  /\ get_script_absolute_path (fun s => codes "/opt/helpers/" ++ s)
       (codes "run.sh")
     = codes "/opt/helpers/run.sh".
Proof.
  split; [reflexivity|].
  apply (proj2 (proj2 (script_path_no_backslash
                         (fun s => codes "/opt/helpers/" ++ s)
                         (codes "run.sh")))).
  reflexivity.
Defined.

(** X7.  [verify_scripts_exist] returns [True] exactly when every
    command that ends in [.sh] or [.py] names an existing script; then
    every script that [generate_alias_content] turns into a path
    exists. *)
Theorem verify_scripts_exist_true (script_exists : text -> bool)
    (aliases : dict) :
  (verify_scripts_exist script_exists aliases = true <->
   forall n c, In (n, c) aliases ->
               endswith dot_sh c || endswith dot_py c = true ->
               script_exists c = true)
  /\ (verify_scripts_exist script_exists aliases = true ->
      forall n c, In (n, c) aliases ->
                  contains fun_def c = false ->
                  endswith dot_sh c || endswith dot_py c = true ->
                  script_exists c = true).
Proof.
  assert (H : verify_scripts_exist script_exists aliases = true <->
              forall n c, In (n, c) aliases ->
                          endswith dot_sh c || endswith dot_py c = true ->
                          script_exists c = true).
  { unfold verify_scripts_exist, missing_scripts. rewrite length_map.
    induction aliases as [|[n0 c0] d IH]; simpl.
    - split; [intros _ n c [] | reflexivity].
    - destruct (endswith dot_sh c0 || endswith dot_py c0) eqn:E; simpl.
      + destruct (script_exists c0) eqn:X; simpl.
        * rewrite IH. split.
          -- intros Hd n c [[= <- <-] | Hin] Hs; [exact X | eauto].
          -- intros Hd n c Hin. apply (Hd n c). now right.
        * split; [discriminate|]. intros Hd.
          specialize (Hd n0 c0 (or_introl eq_refl) E). congruence.
      + rewrite IH. split.
        * intros Hd n c [[= <- <-] | Hin] Hs; [congruence | eauto].
        * intros Hd n c Hin. apply (Hd n c). now right. }
  split; [exact H|].
  intros Hv n c Hin _ Hs. apply (proj1 H Hv n c Hin Hs).
Qed.

Lemma verify_scripts_exist_true_witness :
  let present := fun c => text_eqb c (codes "run.sh") in
  let aliases := [(codes "r", codes "run.sh"); (codes "ll", codes "ls -la")] in
  verify_scripts_exist present aliases = true
  /\ present (codes "run.sh") = true.
Proof.
  split; [reflexivity|].
  apply (proj2 (verify_scripts_exist_true
                  (fun c => text_eqb c (codes "run.sh"))
                  [(codes "r", codes "run.sh"); (codes "ll", codes "ls -la")])
           eq_refl (codes "r") (codes "run.sh"));
    [left; reflexivity | reflexivity | reflexivity].
Defined.

(** ** Updating twice *)

Lemma contains_join (p : text) (ls : list text) :
  existsb (N.eqb LF) p = false -> p <> [] ->
  forallb (fun l => negb (contains p l)) ls = true ->
  contains p (join [LF] ls) = false.
Proof.
  intros Hp Hne. induction ls as [|x ls IH]; intros H.
  - unfold contains. simpl join. now rewrite (index_of_nil_r _ Hne).
  - simpl in H. apply andb_true_iff in H. destruct H as [Hx Hl].
    apply negb_true_iff in Hx.
    destruct ls as [|y ls]; [exact Hx|].
    change (join [LF] (x :: y :: ls)) with (x ++ LF :: join [LF] (y :: ls)).
    unfold contains. rewrite (index_of_sep LF _ _ _ Hp Hne).
    rewrite (contains_false _ _ Hx), (contains_false _ _ (IH Hl)).
    reflexivity.
Qed.

(** X8.  Updating a configuration file a second time with the same
    aliases leaves its text as the first update wrote it, for
    well-formed markers, when the text kept from the file holds no start
    marker and no line of the generated section body holds the end
    marker. *)
Theorem update_shell_config_twice (f : text -> text) (m : markers)
    (aliases : dict) (fs : files) :
  well_formed m = true ->
  contains (m_start m) (new_content m (strip (read_text fs))) = false ->
  forallb (fun l => negb (contains (m_end m) l)) (alias_lines f aliases)
  = true ->
  config (update_shell_config f m aliases
            (update_shell_config f m aliases fs))
  = config (update_shell_config f m aliases fs).
Proof.
  intros Hwf Hr Hl.
  destruct (well_formed_inv m Hwf) as (_ & _ & _ & HE & _ & HnE).
  rewrite !update_shell_config_merge. simpl config. f_equal.
  unfold read_text at 1. simpl config.
  rewrite (merge_unfold m (read_text fs)). unfold merge at 1.
  apply update_add_section; trivial.
  - apply stripped_new_content, stripped_strip.
  - unfold alias_body. now apply contains_join.
Qed.

Lemma update_shell_config_twice_witness :
  let aliases := [(codes "ll", codes "ls -la"); (codes "r", codes "run.sh")] in
  let fs := Files (Some (path_line ++ [LF])) None in
  well_formed init_markers = true
  /\ config (update_shell_config (fun s => s) init_markers aliases
               (update_shell_config (fun s => s) init_markers aliases fs))
     = config (update_shell_config (fun s => s) init_markers aliases fs).
Proof.
  split; [reflexivity|].
  apply (update_shell_config_twice (fun s => s) init_markers
           [(codes "ll", codes "ls -la"); (codes "r", codes "run.sh")]
           (Files (Some (path_line ++ [LF])) None)); reflexivity.
Defined.

(** X9.  After an update the configuration file exists and the backup
    holds the text the file had, byte for byte ([] for a file that did
    not exist).  A second update overwrites that backup with the output
    of the first update: after it the backup still holds the original
    text exactly when the first update left the text unchanged. *)
Theorem backup_overwritten (f : text -> text) (m : markers)
    (aliases : dict) (fs : files) :
  backup (update_shell_config f m aliases fs) = Some (read_text fs)
  /\ config (update_shell_config f m aliases fs) <> None
  /\ backup (update_shell_config f m aliases
               (update_shell_config f m aliases fs))
     = config (update_shell_config f m aliases fs)
  /\ (backup (update_shell_config f m aliases
                (update_shell_config f m aliases fs))
      = Some (read_text fs)
      <-> config (update_shell_config f m aliases fs) = Some (read_text fs)).
Proof.
  rewrite !update_shell_config_merge. simpl.
  repeat split; try discriminate; trivial.
Qed.

(** ** Running the setup *)

Lemma update_text_empty (m : markers) (b : text) : update_text m b [] = b.
Proof.
  unfold update_text, new_content, find_existing_section,
    remove_existing_section.
  change (strip []) with (@nil char).
  destruct (search m []); reflexivity.
Qed.

Lemma update_shell_config_missing (f : text -> text) (m : markers)
    (aliases : dict) (bak : option text) :
  update_shell_config f m aliases (Files None bak)
  = Files (Some (generate_alias_content f m aliases)) (Some []).
Proof.
  unfold update_shell_config, touch, read_text, backup_file, write_text.
  simpl. now rewrite update_text_empty.
Qed.

Lemma load_lines_no_entry (st : dict * list nat) (k : nat) (ls : list text) :
  forallb (fun raw => match parse_line raw with
                      | Entry _ _ => false
                      | _ => true
                      end) ls = true ->
  fst (load_lines st k ls) = fst st.
Proof.
  revert st k. induction ls as [|raw ls IH]; intros st k H; [reflexivity|].
  simpl in H. apply andb_true_iff in H. destruct H as [Hr Hl].
  simpl load_lines. rewrite (IH _ _ Hl). unfold load_line.
  destruct (parse_line raw); [reflexivity | discriminate | reflexivity].
Qed.

Lemma verify_scripts_exist_raising_total (probe : text -> option bool)
    (script_exists : text -> bool) (aliases : dict) :
  (forall c, probe c = Some (script_exists c)) ->
  verify_scripts_exist_raising probe aliases
  = Some (verify_scripts_exist script_exists aliases).
Proof.
  intros Hp. unfold verify_scripts_exist, missing_scripts.
  rewrite length_map.
  induction aliases as [|[n c] d IH]; [reflexivity|].
  cbn [verify_scripts_exist_raising filter snd].
  destruct (endswith dot_sh c || endswith dot_py c); simpl andb; [|exact IH].
  rewrite Hp, IH. destruct (script_exists c); reflexivity.
Qed.

(** X10.  When alias.txt is missing, or none of its lines assigns an
    alias (blank lines, comments, invalid lines), [run] returns without
    asking anything and without touching either configuration file or
    backup. *)
Theorem run_without_aliases (f lower : text -> text)
    (probe : text -> option bool) (m : markers)
    (alias_file : option text) (w : world) :
  (forall t, alias_file = Some t ->
             forallb (fun raw => match parse_line raw with
                                 | Entry _ _ => false
                                 | _ => true
                                 end) (readlines t) = true) ->
  run f lower probe m (fst (load_aliases_from_file alias_file)) w = Finished w.
Proof.
  intros H. destruct alias_file as [t|]; [|reflexivity].
  unfold load_aliases_from_file.
  now rewrite (load_lines_no_entry _ _ _ (H t eq_refl)).
Qed.

Lemma run_without_aliases_witness :
  let t := lines [codes "# my aliases"; []; codes "no assignment here"] in
  let w := World (Files None None) (Files (Some path_line) None) [] in
  run (fun s => s) ascii_lower (fun _ => None) init_markers
    (fst (load_aliases_from_file (Some t))) w
  = Finished w.
Proof.
  apply (run_without_aliases (fun s => s) ascii_lower (fun _ => None)
           init_markers
           (Some (lines [codes "# my aliases"; [];
                         codes "no assignment here"]))).
  intros t [= <-]. reflexivity.
Defined.

(** X11.  With aliases to install and a script check that does not
    raise, a missing [.bashrc] is created only when the answer read from
    the input, in lower case, is [y]: then it holds the generated
    section alone and its backup is empty; otherwise it stays missing.
    Either way one answer is read, and an existing [.zshrc] is updated
    without a question. *)
Theorem run_missing_bashrc (f lower : text -> text)
    (probe : text -> option bool) (m : markers)
    (aliases : dict) (w : world) (answer t : text) (rest : list text) :
  aliases <> [] ->
  verify_scripts_exist_raising probe aliases <> None ->
  config (bashrc w) = None ->
  config (zshrc w) = Some t ->
  stdin w = answer :: rest ->
  (lower answer = codes "y" ->
   run f lower probe m aliases w
   = Finished
       (World (Files (Some (generate_alias_content f m aliases)) (Some []))
              (update_shell_config f m aliases (zshrc w)) rest))
  /\ (lower answer <> codes "y" ->
      run f lower probe m aliases w
      = Finished
          (World (bashrc w) (update_shell_config f m aliases (zshrc w)) rest)).
Proof.
  intros Ha Hv Hb Hz Hs.
  destruct aliases as [|a d]; [congruence|].
  unfold run.
  destruct (verify_scripts_exist_raising probe (a :: d)) as [verified|];
    [|congruence].
  unfold update_configurations, confirm. rewrite Hb, Hs. split; intros Hl.
  - rewrite Hl, text_eqb_refl. simpl zshrc. simpl stdin. rewrite Hz.
    simpl bashrc. f_equal. f_equal.
    destruct (bashrc w) as [c b]. simpl in Hb. subst c.
    apply update_shell_config_missing.
  - rewrite (text_eqb_neq _ _ Hl). simpl zshrc. simpl stdin. now rewrite Hz.
Qed.

Lemma run_missing_bashrc_witness :
  let aliases := [(codes "ll", codes "ls -la"); (codes "r", codes "run.sh")] in
  let probe := fun _ : text => Some false in
  let w := World (Files None None) (Files (Some path_line) None)
             [codes "Y"; codes "n"] in
  verify_scripts_exist_raising probe aliases = Some false
  /\ ascii_lower (codes "Y") = codes "y"
  /\ run (fun s => s) ascii_lower probe init_markers aliases w
     = Finished
         (World (Files (Some (generate_alias_content (fun s => s)
                                init_markers aliases)) (Some []))
                (update_shell_config (fun s => s) init_markers aliases
                   (zshrc w))
                [codes "n"]).
Proof.
  split; [reflexivity|]. split; [reflexivity|].
  apply (proj1 (run_missing_bashrc (fun s => s) ascii_lower
                  (fun _ => Some false) init_markers
                  [(codes "ll", codes "ls -la"); (codes "r", codes "run.sh")]
                  (World (Files None None) (Files (Some path_line) None)
                     [codes "Y"; codes "n"])
                  (codes "Y") path_line [codes "n"]
                  ltac:(discriminate) ltac:(discriminate)
                  eq_refl eq_refl eq_refl)).
  reflexivity.
Defined.

(** X12.  With aliases to install and a script check that does not
    raise, when the input is exhausted [run] ends in [EOFError] at the
    first question it has to ask: before anything is changed when
    [.bashrc] is missing; after [.bashrc] has been updated when
    [.bashrc] exists and [.zshrc] is missing. *)
Theorem run_input_exhausted (f lower : text -> text)
    (probe : text -> option bool) (m : markers)
    (aliases : dict) (w : world) :
  aliases <> [] ->
  verify_scripts_exist_raising probe aliases <> None ->
  stdin w = [] ->
  (config (bashrc w) = None -> run f lower probe m aliases w = EOFError w)
  /\ (config (bashrc w) <> None -> config (zshrc w) = None ->
      run f lower probe m aliases w
      = EOFError (World (update_shell_config f m aliases (bashrc w))
                    (zshrc w) [])).
Proof.
  intros Ha Hv Hs. destruct aliases as [|a d]; [congruence|].
  unfold run.
  destruct (verify_scripts_exist_raising probe (a :: d)) as [verified|];
    [|congruence].
  unfold update_configurations, confirm. rewrite Hs. split.
  - intros Hb. now rewrite Hb.
  - intros Hb Hz. destruct (config (bashrc w)); [|congruence].
    simpl zshrc. now rewrite Hz.
Qed.

Lemma run_input_exhausted_witness :
  let aliases := [(codes "ll", codes "ls -la"); (codes "r", codes "run.sh")] in
  let probe := fun _ : text => Some true in
  let w := World (Files (Some path_line) None) (Files None None) [] in
  verify_scripts_exist_raising probe aliases = Some true
  /\ run (fun s => s) ascii_lower probe init_markers aliases w
     = EOFError (World (update_shell_config (fun s => s) init_markers aliases
                          (bashrc w))
                   (zshrc w) []).
Proof.
  split; [reflexivity|].
  apply (proj2 (run_input_exhausted (fun s => s) ascii_lower
                  (fun _ => Some true) init_markers
                  [(codes "ll", codes "ls -la"); (codes "r", codes "run.sh")]
                  (World (Files (Some path_line) None) (Files None None) [])
                  ltac:(discriminate) ltac:(discriminate) eq_refl));
    [discriminate | reflexivity].
Defined.

(** X13.  When the existence check of a script raises (an alias command
    that ends in [.sh] or [.py] and that the system refuses as a file
    name), [run] ends in that error before any question is asked and
    with both configuration files and backups as they were. *)
Theorem run_script_check_raises (f lower : text -> text)
    (probe : text -> option bool) (m : markers)
    (aliases : dict) (w : world) (n c : text) :
  In (n, c) aliases ->
  endswith dot_sh c || endswith dot_py c = true ->
  probe c = None ->
  verify_scripts_exist_raising probe aliases = None
  /\ run f lower probe m aliases w = OSError w.
Proof.
  intros Hin He Hp.
  assert (Hv : verify_scripts_exist_raising probe aliases = None).
  { induction aliases as [|[n0 c0] d IH]; [destruct Hin|].
    cbn [verify_scripts_exist_raising].
    destruct Hin as [[= -> ->] | Hin].
    - now rewrite He, Hp.
    - rewrite (IH Hin).
      destruct (endswith dot_sh c0 || endswith dot_py c0); [|reflexivity].
      destruct (probe c0); reflexivity. }
  split; [exact Hv|].
  destruct aliases as [|a d]; [destruct Hin|].
  unfold run. now rewrite Hv.
Qed.

Lemma run_script_check_raises_witness :
  let aliases := [(codes "ll", codes "ls -la"); (codes "r", codes "run.sh")] in
  let probe := fun c : text => if text_eqb c (codes "run.sh") then None
                               else Some true in
  let w := World (Files (Some path_line) None) (Files None None) [codes "y"] in
  run (fun s => s) ascii_lower probe init_markers aliases w = OSError w.
Proof.
  apply (proj2 (run_script_check_raises (fun s => s) ascii_lower
                  (fun c => if text_eqb c (codes "run.sh") then None
                            else Some true)
                  init_markers
                  [(codes "ll", codes "ls -la"); (codes "r", codes "run.sh")]
                  (World (Files (Some path_line) None) (Files None None)
                     [codes "y"])
                  (codes "r") (codes "run.sh")
                  (or_intror (or_introl eq_refl)) eq_refl eq_refl)).
Defined.
